(** * TeachAssist router and fact extraction (module7/app.py)

    A shallow embedding of the query-routing and fact-extraction functions
    of [module7/app.py], and the properties its specification states about
    them.

    Text.  A Python [str] is a sequence of code points.  Here a string is a
    [list ascii], the eight bits of a character read as a code point
    U+0000..U+00FF, and every character table below ([isspace], [lower],
    line boundaries, [isalnum], the regular-expression classes) is
    Python's own table restricted to that range.  On this range [lower]
    maps one character to one character.

    The external collaborators (the model behind [agent.tool.use_llm], the
    memory service behind [agent.tool.memory], the teacher agent) are an
    oracle answering each call from the calls made so far; every theorem
    quantifies over all oracles. *)

From Stdlib Require Import Ascii String List Bool Arith NArith ZArith QArith Lia.
Import ListNotations.
Close Scope Q_scope.

(** ** Python's string primitives *)

Module Py.

Definition str := list ascii.

(** A literal of the source. *)
Definition lit (s : string) : str := list_ascii_of_string s.

Definition code (c : ascii) : N := N_of_ascii c.

Definition between (lo hi : N) (c : ascii) : bool :=
  ((lo <=? code c) && (code c <=? hi))%N.

Definition dquote : ascii := "034"%char.
Definition newline : ascii := "010"%char.
Definition backslash : ascii := "092"%char.

(** [c.isspace()] *)
Definition isspace (c : ascii) : bool :=
  between 9 13 c || between 28 32 c || (code c =? 133)%N || (code c =? 160)%N.

(** The characters with a lower-case mapping: A-Z, and U+00C0..U+00DE
    without the multiplication sign U+00D7. *)
Definition isupper (c : ascii) : bool :=
  between 65 90 c || between 192 214 c || between 216 222 c.

Definition lower_char (c : ascii) : ascii :=
  if isupper c then ascii_of_N (code c + 32) else c.

(** [s.lower()] *)
Definition lower (s : str) : str := map lower_char s.

(** [c.isalnum()] *)
Definition isalnum_char (c : ascii) : bool :=
  between 48 57 c || between 65 90 c || between 97 122 c
  || (code c =? 170)%N || between 178 179 c || (code c =? 181)%N
  || between 185 186 c || between 188 190 c
  || between 192 214 c || between 216 246 c || between 248 255 c.

(** [s.isalnum()]: at least one character, and all alphanumeric. *)
Definition isalnum (s : str) : bool :=
  match s with
  | [] => false
  | _ => forallb isalnum_char s
  end.

(** [s.lstrip()] *)
Fixpoint lstrip (s : str) : str :=
  match s with
  | c :: s' => if isspace c then lstrip s' else s
  | [] => []
  end.

(** [s.rstrip()] *)
Definition rstrip (s : str) : str := rev (lstrip (rev s)).

(** [s.strip()] *)
Definition strip (s : str) : str := rstrip (lstrip s).

(** [s.startswith(p)] *)
Fixpoint startswith (p s : str) : bool :=
  match p, s with
  | [], _ => true
  | a :: p', b :: s' => Ascii.eqb a b && startswith p' s'
  | _ :: _, [] => false
  end.

(** [sub in s] *)
Fixpoint contains (sub s : str) : bool :=
  startswith sub s ||
  match s with
  | [] => false
  | _ :: s' => contains sub s'
  end.

(** The index of the first occurrence of [sub] in [s], if any. *)
Fixpoint index_of (sub s : str) : option nat :=
  if startswith sub s then Some 0
  else match s with
       | [] => None
       | _ :: s' => option_map S (index_of sub s')
       end.

(** [s.find(sub)]: the lowest index, or -1. *)
Definition find (sub s : str) : Z :=
  match index_of sub s with
  | Some i => Z.of_nat i
  | None => (-1)%Z
  end.

(** [s.split(sep, 1)[1]] for a non-empty [sep]: the text after the first
    occurrence of [sep]; [None] is Python's IndexError (no occurrence, the
    split has one element). *)
Definition split_after (sep s : str) : option str :=
  match index_of sep s with
  | Some i => Some (skipn (i + length sep) s)
  | None => None
  end.

(** [s[:n]] for an index [n] that is not negative. *)
Definition slice_to (n : Z) (s : str) : str := firstn (Z.to_nat n) s.

(** [s[n:]] for a natural [n]. *)
Definition slice_from (n : nat) (s : str) : str := skipn n s.

(** The line boundaries of [splitlines]: LF, VT, FF, CR, FS, GS, RS and
    NEL (CR LF counts once, see [splitlines_from]). *)
Definition islinebreak (c : ascii) : bool :=
  between 10 13 c || between 28 30 c || (code c =? 133)%N.

Definition is_cr (c : ascii) : bool := (code c =? 13)%N.
Definition is_lf (c : ascii) : bool := (code c =? 10)%N.

(** The scan of [s.splitlines()]; [cur] is the line read so far, in
    reverse.  A boundary closes the current line, empty or not; the end of
    the text closes it only when it is not empty. *)
Fixpoint splitlines_from (cur : str) (s : str) : list str :=
  match s with
  | [] => match cur with [] => [] | _ => [rev cur] end
  | c :: s' =>
      if is_cr c then
        match s' with
        | d :: s'' =>
            if is_lf d then rev cur :: splitlines_from [] s''
            else rev cur :: splitlines_from [] s'
        | [] => rev cur :: splitlines_from [] s'
        end
      else if islinebreak c then rev cur :: splitlines_from [] s'
      else splitlines_from (c :: cur) s'
  end.

(** [s.splitlines()] *)
Definition splitlines (s : str) : list str := splitlines_from [] s.

(** [sep.join(l)] *)
Fixpoint join (sep : str) (l : list str) : str :=
  match l with
  | [] => []
  | [x] => x
  | x :: l' => x ++ sep ++ join sep l'
  end.

(** [s.replace(old, new)] for a non-empty [old]: occurrences are replaced
    from the left and do not overlap.  [n] bounds the characters still
    to be skipped after an occurrence. *)
Fixpoint replace_from (skip : nat) (old new s : str) : str :=
  match s with
  | [] => []
  | c :: s' =>
      match skip with
      | S k => replace_from k old new s'
      | O =>
          if startswith old s
          then new ++ replace_from (length old - 1) old new s'
          else c :: replace_from 0 old new s'
      end
  end.

Definition replace (old new s : str) : str := replace_from 0 old new s.

(** *** Notions the statements use *)

(** A string with no white space at either end. *)
Definition trimmed (t : str) : Prop :=
  (forall c r, t = c :: r -> isspace c = false) /\
  (forall r c, t = r ++ [c] -> isspace c = false).

(** A string that is empty or all white space. *)
Definition blank (s : str) : Prop := forallb isspace s = true.

(** [p] is a prefix of [text] up to case. *)
Definition ci_prefix (p text : str) : Prop :=
  exists head rest, text = head ++ rest /\ lower head = p.

(** [s] is [a], then the first occurrence of [sep], then [b]. *)
Definition first_split (sep s a b : str) : Prop :=
  s = a ++ sep ++ b /\
  forall a' b', s = a' ++ sep ++ b' -> length a <= length a'.

End Py.

(** ** The fragment of Python's [re] that the patterns of app.py use

    The three patterns are sequences of literal characters matched without
    regard to case, [\s+], and one capturing group around a negated
    character set repeated with [+].  [re] is a backtracking matcher: a
    greedy repetition first takes all it can and gives characters back one
    at a time when the rest of the pattern fails; [re.search] tries the
    start positions from the left and keeps the first success. *)

Module Re.
Import Py.

Definition charset := ascii -> bool.

Inductive regex : Type :=
| Eps
| Chr (p : charset)                 (* one character of a class *)
| Repeat1 (p : charset)             (* greedy [+] on a class *)
| Seq (r1 r2 : regex)
| Group (n : nat) (r : regex).      (* capturing group number [n] *)

(** The groups bound so far, latest first. *)
Definition groups := list (nat * str).

(** [m.group(n)] *)
Fixpoint group (n : nat) (g : groups) : option str :=
  match g with
  | [] => None
  | (i, w) :: g' => if Nat.eqb i n then Some w else group n g'
  end.

Section Matcher.
Variable R : Type.

(** Greedy [p+] followed by the continuation [k]: the longer runs are
    tried first. *)
Fixpoint repeat1 (p : charset) (k : str -> option R) (s : str) : option R :=
  match s with
  | c :: s' =>
      if p c then
        match repeat1 p k s' with
        | Some r => Some r
        | None => k s'
        end
      else None
  | [] => None
  end.

(** Match [r] at the head of [s], then continue with [k] on what is left. *)
Fixpoint run (r : regex) (s : str) (g : groups)
         (k : str -> groups -> option R) : option R :=
  match r with
  | Eps => k s g
  | Chr p =>
      match s with
      | c :: s' => if p c then k s' g else None
      | [] => None
      end
  | Repeat1 p => repeat1 p (fun s' => k s' g) s
  | Seq r1 r2 => run r1 s g (fun s' g' => run r2 s' g' k)
  | Group n r1 =>
      run r1 s g
          (fun s' g' => k s' ((n, firstn (length s - length s') s) :: g'))
  end.

End Matcher.

Arguments repeat1 {R} p k s.
Arguments run {R} r s g k.

(** The match at the head of [s], if there is one. *)
Definition match_here (r : regex) (s : str) : option groups :=
  run r s [] (fun _ g => Some g).

(** [re.search(r, s)]: the first start position with a match. *)
Fixpoint search (r : regex) (s : str) : option groups :=
  match match_here r s with
  | Some g => Some g
  | None =>
      match s with
      | [] => None
      | _ :: s' => search r s'
      end
  end.

(** A literal character under [re.IGNORECASE]. *)
Definition ignorecase (c : ascii) : charset :=
  fun x => Ascii.eqb (lower_char x) (lower_char c).

(** A literal word under [re.IGNORECASE]. *)
Fixpoint word (w : str) : regex :=
  match w with
  | [] => Eps
  | c :: w' => Seq (Chr (ignorecase c)) (word w')
  end.

(** [\s+] *)
Definition spaces : regex := Repeat1 isspace.

(** The negated set of the patterns: any character but a newline, a
    double quote and a full stop. *)
Definition value_char : charset :=
  fun c => negb (Ascii.eqb c newline || Ascii.eqb c dquote || Ascii.eqb c "."%char).

(** The capturing group: one or more characters of that set, greedy. *)
Definition value : regex := Group 1 (Repeat1 value_char).

(** The words [ws], each followed by [\s+], then the capturing group. *)
Fixpoint fact (ws : list str) : regex :=
  match ws with
  | [] => value
  | w :: ws' => Seq (word w) (Seq spaces (fact ws'))
  end.

(** The texts a [fact] pattern matches, with the value its group
    captures: each word up to case, white space after each, then a
    non-empty run of value characters. *)
Inductive fact_text : list str -> str -> str -> Prop :=
| ft_value v :
    v <> [] -> Forall (fun c => value_char c = true) v -> fact_text [] v v
| ft_word w ws head sp rest v :
    lower head = lower w ->
    sp <> [] -> Forall (fun c => isspace c = true) sp ->
    fact_text ws rest v ->
    fact_text (w :: ws) (head ++ sp ++ rest) v.

(** What follows a captured value: nothing, or a character outside the
    class. *)
Definition value_ends (post : str) : Prop :=
  post = [] \/ exists c r, post = c :: r /\ value_char c = false.

(** The blob has a match of the pattern somewhere. *)
Definition occurs (ws : list str) (blob : str) : Prop :=
  exists pre t v post, blob = pre ++ t ++ post /\ fact_text ws t v.

(** [v] is the value of a first match in [blob], taken to the end of the
    run of value characters. *)
Definition captured (ws : list str) (blob v : str) : Prop :=
  exists pre t post,
    blob = pre ++ t ++ post /\ fact_text ws t v /\ value_ends post /\
    forall pre2 t2 v2 post2,
      blob = pre2 ++ t2 ++ post2 -> fact_text ws t2 v2 ->
      length pre <= length pre2.

End Re.

(** ** module7/app.py: the pure helpers *)

Module App.
Import Py.

(** [bool(s)] of a string. *)
Definition truthy (s : str) : bool :=
  match s with [] => false | _ => true end.

(** [a or b] on strings. *)
Definition or_else (a b : str) : str := if truthy a then a else b.

Definition kb_keywords : list str :=
  [ lit "remember"; lit "store"; lit "save"; lit "record"; lit "note that";
    lit "what did i tell"; lit "what do you remember"; lit "recall";
    lit "retrieve"; lit "my name is"; lit "i live"; lit "my birthday";
    lit "where do i live"; lit "who am i" ].

Definition _looks_like_kb_query (query : str) : bool :=
  let text := lower (or_else query []) in
  existsb (fun k => contains k text) kb_keywords.

Definition prefixes : list str :=
  [ lit "remember that "; lit "remember "; lit "save that "; lit "save ";
    lit "store that "; lit "store "; lit "note that "; lit "record that " ].

(** The loop [for p in prefixes] of [_normalize_store_content]. *)
Fixpoint strip_prefix (ps : list str) (lowered text : str) : str :=
  match ps with
  | [] => text
  | p :: ps' =>
      if startswith p lowered then strip (slice_from (length p) text)
      else strip_prefix ps' lowered text
  end.

Definition _normalize_store_content (raw : str) : str :=
  let text := strip (or_else raw []) in
  let lowered := lower text in
  strip_prefix prefixes lowered text.

Definition preview_marker : str := lit "Content Preview:".

(** The key marker, the word content between double quotes and a colon. *)
Definition content_key : str := [dquote] ++ lit "content" ++ [dquote] ++ lit ":".

(** The branch [if content_key in snippet] of [_extract_memory_entries]:
    the entry it appends before [continue], or [None] when it falls
    through to the plain snippet. *)
Definition quoted_content (snippet : str) : option str :=
  if contains content_key snippet then
    match split_after content_key snippet with
    | None => None
    | Some rest =>
        let part := lstrip rest in
        let part := if startswith [dquote] part then slice_from 1 part else part in
        let end_ := find [dquote] part in
        if (end_ >? -1)%Z then Some (strip (slice_to end_ part)) else None
    end
  else None.

(** One turn of the loop [for line in lines]: the entry the line adds, if
    it adds one. *)
Definition line_entry (line : str) : option str :=
  if contains preview_marker line then
    match split_after preview_marker line with
    | None => None
    | Some rest =>
        let snippet := strip rest in
        match quoted_content snippet with
        | Some entry => Some entry
        | None => if truthy snippet then Some snippet else None
        end
    end
  else None.

Definition append_entry (entries : list str) (line : str) : list str :=
  match line_entry line with
  | Some entry => entries ++ [entry]
  | None => entries
  end.

Definition _extract_memory_entries (raw_results : str) : list str :=
  if negb (truthy raw_results) then []
  else fold_left append_entry (splitlines raw_results) [].

Definition birthday_re : Re.regex := Re.fact [lit "birthday"; lit "is"].
Definition live_re : Re.regex := Re.fact [lit "i"; lit "live"; lit "in"].
Definition name_re : Re.regex := Re.fact [lit "my"; lit "name"; lit "is"].

(** [m.group(1)] of a successful search; the patterns all bind group 1. *)
Definition group1 (g : Re.groups) : str :=
  match Re.group 1 g with Some w => w | None => [] end.

Definition _answer_from_memory (query : str) (memories : list str) : option str :=
  let q := lower (or_else query []) in
  let blob := join [newline] memories in
  let birthday :=
    if contains (lit "birthday") q then
      match Re.search birthday_re blob with
      | Some m =>
          let val := strip (group1 m) in
          let val := replace (lit "oktober") (lit "october") val in
          Some (lit "Your birthday is " ++ val ++ lit ".")
      | None => None
      end
    else None in
  match birthday with
  | Some answer => Some answer
  | None =>
  let residence :=
    if contains (lit "where do i live") q || contains (lit "where i live") q then
      match Re.search live_re blob with
      | Some m => Some (lit "You live in " ++ strip (group1 m) ++ lit ".")
      | None => None
      end
    else None in
  match residence with
  | Some answer => Some answer
  | None =>
    if contains (lit "my name") q then
      match Re.search name_re blob with
      | Some m => Some (lit "Your name is " ++ strip (group1 m) ++ lit ".")
      | None => None
      end
    else None
  end
  end.

(** *** Notions the statements use *)

(** The text after the opening quote, when the value starts with one. *)
Definition after_open_quote (part : str) : str :=
  match part with
  | c :: r => if Ascii.eqb c dquote then r else part
  | [] => []
  end.

(** The quoted value of a snippet, as the code reads it: after the first
    key marker, white space and one opening quote are dropped and the value
    runs to the next double quote, escaped or not; it is trimmed. *)
Inductive quoted_value (snippet : str) : option str -> Prop :=
| qv_no_key :
    contains content_key snippet = false -> quoted_value snippet None
| qv_open b t :
    first_split content_key snippet b t ->
    ~ In dquote (after_open_quote (lstrip t)) ->
    quoted_value snippet None
| qv_closed b t v u :
    first_split content_key snippet b t ->
    after_open_quote (lstrip t) = v ++ dquote :: u -> ~ In dquote v ->
    quoted_value snippet (Some (strip v)).

(** The entry a line adds. *)
Inductive entry_of (line : str) : option str -> Prop :=
| e_unmarked :
    contains preview_marker line = false -> entry_of line None
| e_quoted a rest e :
    first_split preview_marker line a rest ->
    quoted_value (strip rest) (Some e) -> entry_of line (Some e)
| e_plain a rest :
    first_split preview_marker line a rest ->
    quoted_value (strip rest) None -> strip rest <> [] ->
    entry_of line (Some (strip rest))
| e_empty a rest :
    first_split preview_marker line a rest -> strip rest = [] ->
    entry_of line None.

(** The entries kept, in order. *)
Definition kept (es : list (option str)) : list str :=
  flat_map (fun e => match e with Some x => [x] | None => [] end) es.

(** One question type of [_answer_from_memory]: the trigger [b], the
    pattern of the words [ws], the sentence [say] built on the value. *)
Definition question (b : bool) (ws : list str) (say : str -> str) (blob : str)
  : option str :=
  if b then
    match Re.search (Re.fact ws) blob with
    | Some m => Some (say (group1 m))
    | None => None
    end
  else None.

Definition say_birthday (v : str) : str :=
  lit "Your birthday is " ++ replace (lit "oktober") (lit "october") (strip v)
  ++ lit ".".
Definition say_residence (v : str) : str := lit "You live in " ++ strip v ++ lit ".".
Definition say_name (v : str) : str := lit "Your name is " ++ strip v ++ lit ".".

End App.

(** ** module7/app.py: the calls to the outside and the handlers *)

Module Agent.
Import Py App.

(** The calls to external collaborators.  A float or an int argument is
    handed to the service as it is; [Q] and [Z] stand for their values. *)
Inductive call : Type :=
| use_llm (prompt system_prompt : str)
| memory_store (content : str)
| memory_retrieve (query : str) (min_score : Q) (max_results : Z)
| teacher_agent (query : str).

(** What the run leaves behind, in order. *)
Inductive event : Type :=
| Called (c : call)
| Warned (message : str)                 (* st.warning *)
| Shown (role : str) (content : str).    (* markdown in a chat message *)

(** The answer to a call: [str(result)], or an exception and its text. *)
Inductive reply : Type :=
| Returns (text : str)
| Raises (message : str).

(** The collaborators: an answer to each call, given all that happened
    before it. *)
Definition oracle := list event -> call -> reply.

Record world : Type := World {
  environ_kb : option str;          (* os.environ, key STRANDS_KNOWLEDGE_BASE_ID *)
  agent_cache : list str;           (* arguments st.cache_resource has seen *)
  kb_min_score : option Q;          (* st.session_state, key kb_min_score *)
  kb_max_results : option Z;        (* st.session_state, key kb_max_results *)
  messages : list (str * str);      (* st.session_state.messages *)
  log : list event
}.

Inductive result (A : Type) : Type :=
| Ok (a : A)
| Exn (message : str).
Arguments Ok {A} a.
Arguments Exn {A} message.

(** State and exceptions. *)
Definition M (A : Type) : Type := oracle -> world -> result A * world.

Definition ret {A} (a : A) : M A := fun _ w => (Ok a, w).

Definition bind {A B} (m : M A) (f : A -> M B) : M B :=
  fun o w =>
    match m o w with
    | (Ok a, w') => f a o w'
    | (Exn e, w') => (Exn e, w')
    end.

Notation "x <- m ;; k" := (bind m (fun x => k))
  (at level 61, m at next level, right associativity).
Notation "m ;;; k" := (bind m (fun _ => k))
  (at level 61, right associativity).

(** [try: m except Exception as e: h(str(e))] *)
Definition catch {A} (m : M A) (h : str -> M A) : M A :=
  fun o w =>
    match m o w with
    | (Ok a, w') => (Ok a, w')
    | (Exn e, w') => h e o w'
    end.

Definition record (e : event) (w : world) : world :=
  World (environ_kb w) (agent_cache w) (kb_min_score w) (kb_max_results w)
        (messages w) (log w ++ [e]).

Definition external (c : call) : M str :=
  fun o w =>
    match o (log w) c with
    | Returns text => (Ok text, record (Called c) w)
    | Raises e => (Exn e, record (Called c) w)
    end.

Definition emit (e : event) : M unit := fun _ w => (Ok tt, record e w).

Definition get_world : M world := fun _ w => (Ok w, w).

Definition set_environ_kb (v : str) : M unit :=
  fun _ w => (Ok tt, World (Some v) (agent_cache w) (kb_min_score w)
                           (kb_max_results w) (messages w) (log w)).

Definition cache_add (v : str) : M unit :=
  fun _ w => (Ok tt, World (environ_kb w) (v :: agent_cache w) (kb_min_score w)
                           (kb_max_results w) (messages w) (log w)).

Definition messages_append (role content : str) : M unit :=
  fun _ w => (Ok tt, World (environ_kb w) (agent_cache w) (kb_min_score w)
                           (kb_max_results w) (messages w ++ [(role, content)])
                           (log w)).

Definition ACTION_SYSTEM_PROMPT : str :=
  lit "
You route queries to either a Teacher agent or a Knowledge Base agent.

Output EXACTLY one word: " ++ [dquote] ++ lit "teacher" ++ [dquote] ++ lit " or "
  ++ [dquote] ++ lit "knowledgebase" ++ [dquote] ++ lit ".

Send to knowledgebase only if the user intent is clearly about storing or recalling personal facts or prior saved info, e.g.:
- remember/save/store/record/note that ...
- my name is / I live in / my birthday is ...
- what did I tell you / what do you remember about ...
- retrieve/recall my ...

Otherwise, send to teacher for subject-matter questions (math, programming, grammar, translation, general questions).
Do not add explanations.
".

Definition KB_ACTION_SYSTEM_PROMPT : str :=
  lit "
You are a knowledge base assistant focusing ONLY on classifying user queries.
Your task is to determine whether a user query requires STORING information to a knowledge base
or RETRIEVING information from a knowledge base.

Reply with EXACTLY ONE WORD - either " ++ [dquote] ++ lit "store" ++ [dquote]
  ++ lit " or " ++ [dquote] ++ lit "retrieve" ++ [dquote] ++ lit ".
".

Definition ANSWER_SYSTEM_PROMPT : str :=
  lit "
You are a helpful knowledge assistant that provides clear, concise answers 
based on information retrieved from a knowledge base.

The information from the knowledge base contains document IDs, titles, 
content previews and relevance scores. Focus on the actual content and 
ignore the metadata.
".

(** [a == b] on strings. *)
Definition str_eqb (a b : str) : bool :=
  if list_eq_dec ascii_dec a b then true else false.

Definition DEFAULT_KB_ID : str := lit "demokb123".

(** [os.environ.get(kb_env_key)], as a string that is empty when unset. *)
Definition environ_get (w : world) : str :=
  match environ_kb w with Some v => v | None => [] end.

Definition get_current_kb_id : M str :=
  w <- get_world ;;
  let kb_id := or_else (environ_get w) DEFAULT_KB_ID in
  (if negb (truthy (environ_get w)) then
     emit (Warned (lit "STRANDS_KNOWLEDGE_BASE_ID is not set. Using demo knowledge base. Set the environment variable for real data: export STRANDS_KNOWLEDGE_BASE_ID=<your_kb_id>"))
   else ret tt) ;;;
  ret kb_id.

Definition is_valid_kb_id (kb_id : str) : bool :=
  isalnum kb_id && (6 <=? length kb_id).

(** [get_kb_agent] under [st.cache_resource]: the body runs the first time
    an argument is seen.  The agent it builds is the handle of the
    external calls.  The assignment to [os.environ] raises ValueError for a
    value that holds a NUL character; the handlers pass the result of
    [get_current_kb_id], which is read from [os.environ] or is the default
    and so holds none, and this case is left out. *)
Definition get_kb_agent (kb_id : str) : M unit :=
  w <- get_world ;;
  if existsb (str_eqb kb_id) (agent_cache w) then ret tt
  else set_environ_kb kb_id ;;; cache_add kb_id.

Definition determine_action (query : str) : M str :=
  if _looks_like_kb_query query then ret (lit "knowledgebase")
  else
    kb_id <- get_current_kb_id ;;
    get_kb_agent kb_id ;;;
    result <- external (use_llm (lit "Query: " ++ query) ACTION_SYSTEM_PROMPT) ;;
    let action_text := strip (lower result) in
    ret (if str_eqb action_text (lit "knowledgebase")
         then lit "knowledgebase" else lit "teacher").

(** The part of [run_kb_agent] after a retrieval returned [result_str]. *)
Definition answer_retrieval (kb_id query result_str : str) : M str :=
  if contains (lit "status': 'error'") result_str
     || contains ([dquote] ++ lit "status" ++ [dquote] ++ lit ": " ++ [dquote]
                  ++ lit "error" ++ [dquote]) result_str
     || contains (lit "No knowledge base ID") result_str
  then
    ret (lit "Knowledge base request failed. Please verify the ID, region, and permissions. "
         ++ lit "Current ID: " ++ kb_id ++ lit ". Error: " ++ result_str)
  else if contains (lit "No results found") result_str then
    ret (lit "I don't have any stored information matching that yet. "
         ++ lit "Try phrasing a fact to store first, e.g. 'Remember that my birthday is 12 Oct'.")
  else
    let memories := _extract_memory_entries result_str in
    let direct := _answer_from_memory query memories in
    match direct with
    | Some answer => if truthy answer then ret answer else
        (* not reached: an answer is never empty *)
        ret (lit "I couldn't extract any relevant stored facts yet. Try storing it explicitly, e.g. 'Remember that my birthday is 12 Oct'.")
    | None =>
        match memories with
        | _ :: _ =>
            external (use_llm
              (lit "User question: " ++ [newline] ++ query ++ [newline; newline]
               ++ lit "Relevant stored facts: " ++ [newline] ++ lit "- "
               ++ join ([newline] ++ lit "- ") memories
               ++ [newline; newline]
               ++ lit "Answer succinctly based only on these facts. If unknown, say you don't have that info.")
              ANSWER_SYSTEM_PROMPT)
        | [] =>
            ret (lit "I couldn't extract any relevant stored facts yet. Try storing it explicitly, e.g. 'Remember that my birthday is 12 Oct'.")
        end
    end.

Definition run_kb_agent (query : str) : M str :=
  kb_id <- get_current_kb_id ;;
  if negb (is_valid_kb_id kb_id) then
    ret (lit "Knowledge base is not configured. Provide a valid alphanumeric Knowledge Base ID "
         ++ lit "(no hyphens or special characters, got '" ++ kb_id ++ lit "').")
  else
    get_kb_agent kb_id ;;;
    result <- external (use_llm (lit "Query: " ++ query) KB_ACTION_SYSTEM_PROMPT) ;;
    let action_text := strip (lower result) in
    if contains (lit "store") action_text then
      let normalized := _normalize_store_content query in
      external (memory_store (or_else normalized query)) ;;;
      ret (lit "I've stored this information.")
    else
      w <- get_world ;;
      result <- external (memory_retrieve query
                            (match kb_min_score w with Some v => v | None => 6 # 10 end)
                            (match kb_max_results w with Some v => v | None => 5%Z end)) ;;
      answer_retrieval kb_id query result.

(** The handler of one chat input; [None] is no input. *)
Definition handle_query (query : option str) : M unit :=
  match query with
  | None => ret tt
  | Some query =>
      if truthy query then
        messages_append (lit "user") query ;;;
        emit (Shown (lit "user") query) ;;;
        catch
          (action <- determine_action query ;;
           content <-
             (if str_eqb action (lit "teacher")
              then external (teacher_agent query)
              else run_kb_agent query) ;;
           emit (Shown (lit "assistant") content) ;;;
           messages_append (lit "assistant") content)
          (fun e =>
             let error_message := lit "An error occurred: " ++ e in
             emit (Shown (lit "assistant") error_message) ;;;
             messages_append (lit "assistant") error_message)
      else ret tt
  end.

(** The contents handed to the memory service for storing, in order. *)
Fixpoint stored (l : list event) : list str :=
  match l with
  | Called (memory_store content) :: l' => content :: stored l'
  | _ :: l' => stored l'
  | [] => []
  end.

(** The retrievals asked of the memory service. *)
Fixpoint retrievals (l : list event) : list call :=
  match l with
  | Called (memory_retrieve q s n) :: l' => memory_retrieve q s n :: retrievals l'
  | _ :: l' => retrievals l'
  | [] => []
  end.

(** *** Notions the statements use *)

(** The knowledge-base identifier in force in a world. *)
Definition kb_id_of (w : world) : str := or_else (environ_get w) DEFAULT_KB_ID.

(** The world after [get_current_kb_id]: a warning when the variable is
    not set. *)
Definition looked_up (w : world) : world :=
  if negb (truthy (environ_get w)) then
    record (Warned (lit "STRANDS_KNOWLEDGE_BASE_ID is not set. Using demo knowledge base. Set the environment variable for real data: export STRANDS_KNOWLEDGE_BASE_ID=<your_kb_id>")) w
  else w.

(** What [get_current_kb_id] adds to the log. *)
Definition lookup_warnings (w : world) : list event :=
  if truthy (environ_get w) then []
  else [Warned (lit "STRANDS_KNOWLEDGE_BASE_ID is not set. Using demo knowledge base. Set the environment variable for real data: export STRANDS_KNOWLEDGE_BASE_ID=<your_kb_id>")].

(** The world after [get_kb_agent]. *)
Definition with_agent (kb_id : str) (w : world) : world :=
  snd (get_kb_agent kb_id (fun _ _ => Returns []) w).

(** The world in which the first model call of either handler is made. *)
Definition ready (w : world) : world := with_agent (kb_id_of w) (looked_up w).

(** The routing prompt of a query. *)
Definition routing_call (query : str) : call :=
  use_llm (lit "Query: " ++ query) ACTION_SYSTEM_PROMPT.

(** The store-or-retrieve prompt of a query. *)
Definition kb_action_call (query : str) : call :=
  use_llm (lit "Query: " ++ query) KB_ACTION_SYSTEM_PROMPT.

Definition route_of (out : str) : str :=
  if str_eqb (strip (lower out)) (lit "knowledgebase")
  then lit "knowledgebase" else lit "teacher".

(** The retrieval of a query, with the session's tuning. *)
Definition retrieve_call (query : str) (w : world) : call :=
  memory_retrieve query
    (match kb_min_score w with Some v => v | None => 6 # 10 end)
    (match kb_max_results w with Some v => v | None => 5%Z end).

Definition store_call (query : str) : call :=
  memory_store (or_else (_normalize_store_content query) query).

(** The test of [run_kb_agent] for a failed retrieval. *)
Definition reports_error (result_str : str) : bool :=
  contains (lit "status': 'error'") result_str
  || contains ([dquote] ++ lit "status" ++ [dquote] ++ lit ": " ++ [dquote]
               ++ lit "error" ++ [dquote]) result_str
  || contains (lit "No knowledge base ID") result_str.

Definition failure_message (kb_id result_str : str) : str :=
  lit "Knowledge base request failed. Please verify the ID, region, and permissions. "
  ++ lit "Current ID: " ++ kb_id ++ lit ". Error: " ++ result_str.

Definition no_results_message : str :=
  lit "I don't have any stored information matching that yet. "
  ++ lit "Try phrasing a fact to store first, e.g. 'Remember that my birthday is 12 Oct'.".

(** Every content a run hands to the memory service for storing is not
    empty. *)
Definition stores_nonempty (new : list event) : Prop :=
  Forall (fun content => content <> []) (stored new).

(** The log only grows under [m], by events that store no empty content. *)
Definition careful {A} (m : M A) : Prop :=
  forall o w, exists new,
    log (snd (m o w)) = log w ++ new /\ stores_nonempty new.

End Agent.

(** ** vtb-agents/hotel_helpers.py and image_helpers.py: keys and names *)

Module Helpers.
Import Py App Agent.

(** [os.environ] *)
Definition environ := list (str * str).

(** [os.environ.get(key, default)] *)
Fixpoint environ_get_or (env : environ) (key default : str) : str :=
  match env with
  | [] => default
  | (k, v) :: env' => if str_eqb k key then v else environ_get_or env' key default
  end.

(** [RuntimeError] is the one exception these raise; [Exn] holds its text. *)
Definition get_airtrotter_api_key (env : environ) : result str :=
  let api_key := strip (environ_get_or env (lit "AIRTROTTER_API_KEY") []) in
  if negb (truthy api_key) then
    Exn (lit "AIRTROTTER_API_KEY is not set. Add it to environment or .env file.")
  else Ok api_key.

Definition get_unsplash_api_key (env : environ) : result str :=
  let api_key := strip (environ_get_or env (lit "UNSPLASH_API_KEY") []) in
  if negb (truthy api_key) then
    Exn (lit "UNSPLASH_API_KEY is not set. Add it to environment or .env file.")
  else Ok api_key.

(** The scan of [s.split()]: the runs of characters that are not white
    space; [cur] is the run read so far, in reverse. *)
Fixpoint split_from (cur : str) (s : str) : list str :=
  match s with
  | [] => match cur with [] => [] | _ => [rev cur] end
  | c :: s' =>
      if isspace c then
        match cur with
        | [] => split_from [] s'
        | _ => rev cur :: split_from [] s'
        end
      else split_from (c :: cur) s'
  end.

(** [s.split()] *)
Definition split (s : str) : list str := split_from [] s.

(** [normalize_name]; [None] is Python's [None]. *)
Definition normalize_name (value : option str) : str :=
  match value with
  | None => []
  | Some v =>
      if negb (truthy v) then []
      else join (lit " ") (split (strip (lower v)))
  end.

(** *** Notions the statements use *)

(** A word of a normalized name: not empty, no white space, lower case. *)
Definition name_word (w : str) : Prop :=
  w <> [] /\ Forall (fun c => isspace c = false /\ lower_char c = c) w.

End Helpers.

(** ** The specification's own wording, where it differs from the code *)

Module AsSpecified.
Import Py App.

(** The text up to the next double quote that no backslash escapes. *)
Fixpoint to_unescaped_quote (s : str) : option str :=
  match s with
  | [] => None
  | c :: s' =>
      if Ascii.eqb c dquote then Some []
      else if Ascii.eqb c backslash then
        match s' with
        | d :: s'' => option_map (fun v => c :: d :: v) (to_unescaped_quote s'')
        | [] => None
        end
      else option_map (cons c) (to_unescaped_quote s')
  end.

(** The quoted value as the specification words it: after the key marker,
    skip to the first double quote, then take the text up to the next
    unescaped one. *)
Definition quoted_value_as_specified (snippet : str) : option str :=
  if contains content_key snippet then
    match split_after content_key snippet with
    | Some rest =>
        match split_after [dquote] rest with
        | Some value => to_unescaped_quote value
        | None => None
        end
    | None => None
    end
  else None.

Definition line_entry_as_specified (line : str) : option str :=
  if contains preview_marker line then
    match split_after preview_marker line with
    | Some rest =>
        match quoted_value_as_specified rest with
        | Some entry => Some entry
        | None => if truthy (strip rest) then Some (strip rest) else None
        end
    | None => None
    end
  else None.

Definition extract_memory_entries_as_specified (raw : str) : list str :=
  kept (map line_entry_as_specified (splitlines raw)).

(** The error indicators as the specification words them. *)
Definition reports_error_as_specified (result_str : str) : bool :=
  contains (lit "status: error") result_str
  || contains (lit "No knowledge base ID") result_str.

(** The question types as the specification words them: an else-if chain
    on the triggers alone. *)
Definition answer_from_memory_else_if (query : str) (memories : list str)
  : option str :=
  let q := lower query in
  let blob := join [newline] memories in
  if contains (lit "birthday") q then
    question true [lit "birthday"; lit "is"] say_birthday blob
  else if contains (lit "where do i live") q || contains (lit "where i live") q then
    question true [lit "i"; lit "live"; lit "in"] say_residence blob
  else if contains (lit "my name") q then
    question true [lit "my"; lit "name"; lit "is"] say_name blob
  else None.

End AsSpecified.

(** ** Sample inputs *)

Module Samples.
Import Py App Agent.

(** A world and collaborators to run the handlers in. *)
Definition sample_world : world :=
  World (Some (lit "demokb123")) [] (Some (6 # 10)%Q) (Some 5%Z) [] [].

Definition sample_oracle (llm_says memory_says : str) : oracle :=
  fun _ c =>
    match c with
    | use_llm _ _ => Returns llm_says
    | memory_retrieve _ _ _ => Returns memory_says
    | memory_store _ => Returns (lit "stored")
    | teacher_agent _ => Returns (lit "taught")
    end.

(** The two lines of the specification's example. *)
Definition two_previews : str :=
  lit "Content Preview: {" ++ content_key ++ lit " " ++ [dquote]
  ++ lit "my birthday is 12 oktober" ++ [dquote] ++ lit "}" ++ [newline]
  ++ lit "Content Preview: plain text fact".

(** A preview whose value holds escaped quotes. *)
Definition escaped_preview : str :=
  lit "Content Preview: {" ++ content_key ++ lit " " ++ [dquote]
  ++ lit "say " ++ [backslash; dquote] ++ lit "hi" ++ [backslash; dquote]
  ++ [dquote] ++ lit "}".

(** A preview whose value has white space inside the quotes. *)
Definition padded_preview : str :=
  lit "Content Preview: {" ++ content_key ++ lit " " ++ [dquote]
  ++ lit " tea " ++ [dquote] ++ lit "}".

(** A preview whose value is not quoted; a quoted word comes later. *)
Definition unquoted_preview : str :=
  lit "Content Preview: {" ++ content_key ++ lit " null, " ++ [dquote]
  ++ lit "note" ++ [dquote] ++ lit ": 1}".

(** A preview whose quoted value is empty. *)
Definition empty_value_preview : str :=
  lit "Content Preview: {" ++ content_key ++ lit " " ++ [dquote; dquote]
  ++ lit "}".

End Samples.

(** ** Notions for the further properties *)

Module Further.
Import Py App Agent.

(** [e] is a contiguous piece of [s]. *)
Definition piece (e s : str) : Prop := exists x y, s = x ++ e ++ y.

(** No character of [s] is a line boundary. *)
Definition one_line (s : str) : Prop :=
  Forall (fun c => islinebreak c = false) s.

(** Under [m] the log grows by events that all satisfy [Q]. *)
Definition emits (Q : event -> Prop) {A} (m : M A) : Prop :=
  forall o w, exists new, log (snd (m o w)) = log w ++ new /\ Forall Q new.

(** [m] returns, whatever the collaborators do. *)
Definition never_raises {A} (m : M A) : Prop :=
  forall o w, exists a, fst (m o w) = Ok a.

(** [m] leaves the conversation history alone. *)
Definition keeps_messages {A} (m : M A) : Prop :=
  forall o w, messages (snd (m o w)) = messages w.

(** An event that is a call to a collaborator. *)
Definition is_call (e : event) : Prop := exists c, e = Called c.

(** An event that is a call to the teacher agent. *)
Definition is_teacher_call (e : event) : Prop :=
  exists query, e = Called (teacher_agent query).

(** An event that is a call to the memory service. *)
Definition is_memory_call (e : event) : Prop :=
  (exists content, e = Called (memory_store content))
  \/ (exists query s n, e = Called (memory_retrieve query s n)).

(** The prompt of the fallback summarizer. *)
Definition summary_prompt (query : str) (memories : list str) : str :=
  lit "User question: " ++ [newline] ++ query ++ [newline; newline]
  ++ lit "Relevant stored facts: " ++ [newline] ++ lit "- "
  ++ join ([newline] ++ lit "- ") memories
  ++ [newline; newline]
  ++ lit "Answer succinctly based only on these facts. If unknown, say you don't have that info.".

Definition summary_call (query : str) (memories : list str) : call :=
  use_llm (summary_prompt query memories) ANSWER_SYSTEM_PROMPT.

Definition no_facts_message : str :=
  lit "I couldn't extract any relevant stored facts yet. Try storing it explicitly, e.g. 'Remember that my birthday is 12 Oct'.".

Definition not_configured_message (kb_id : str) : str :=
  lit "Knowledge base is not configured. Provide a valid alphanumeric Knowledge Base ID "
  ++ lit "(no hyphens or special characters, got '" ++ kb_id ++ lit "').".

(** A retrieval line holding a plain fact. *)
Definition plain_preview (fact : str) : str :=
  preview_marker ++ lit " " ++ fact.

(** A retrieval line holding a fact as a quoted content value. *)
Definition quoted_preview (fact : str) : str :=
  preview_marker ++ lit " {" ++ content_key ++ lit " " ++ [dquote] ++ fact
  ++ [dquote] ++ lit "}".

(** The part of [handle_query] that computes the reply: the routing, then
    the teacher agent or [run_kb_agent]. *)
Definition respond (query : str) : M str :=
  action <- determine_action query ;;
  if str_eqb action (lit "teacher")
  then external (teacher_agent query)
  else run_kb_agent query.

(** The world with one more message, shown and kept in the history. *)
Definition with_message (role content : str) (w : world) : world :=
  World (environ_kb w) (agent_cache w) (kb_min_score w) (kb_max_results w)
        (messages w ++ [(role, content)]) (log w ++ [Shown role content]).

Definition error_message (e : str) : str := lit "An error occurred: " ++ e.

(** The events of a kind [f] in a log. *)
Definition tally (f : event -> bool) (l : list event) : nat :=
  length (filter f l).

(** Under [m] the log grows by at most [n] events of the kind [f]. *)
Definition spends (f : event -> bool) (n : nat) {A} (m : M A) : Prop :=
  forall o w, exists new, log (snd (m o w)) = log w ++ new /\ tally f new <= n.

Definition any_call (e : event) : bool :=
  match e with Called _ => true | _ => false end.

Definition model_call (e : event) : bool :=
  match e with Called (use_llm _ _) => true | _ => false end.

Definition memory_call (e : event) : bool :=
  match e with
  | Called (memory_store _) | Called (memory_retrieve _ _ _) => true
  | _ => false
  end.

Definition teacher_call (e : event) : bool :=
  match e with Called (teacher_agent _) => true | _ => false end.

Definition Q_eq_dec (a b : Q) : {a = b} + {a <> b}.
Proof. decide equality; [apply Pos.eq_dec|apply Z.eq_dec]. Defined.

Definition call_eq_dec (a b : call) : {a = b} + {a <> b}.
Proof.
  decide equality;
    try apply (list_eq_dec ascii_dec); [apply Z.eq_dec|apply Q_eq_dec].
Defined.

(** The event is the call [c], arguments and all. *)
Definition same_call (c : call) (e : event) : bool :=
  match e with
  | Called c' => if call_eq_dec c c' then true else false
  | _ => false
  end.


(** One call when the kind counts it. *)
Definition cost (b : bool) : nat := if b then 1 else 0.

(** The words [ws], a space after each, then the value [v]. *)
Definition phrase (ws : list str) (v : str) : str :=
  fold_right (fun w rest => w ++ " "%char :: rest) v ws.

End Further.

(** * Properties *)

(** ** The string primitives *)

Module PyFacts.
Import Py.

Lemma startswith_app (p r : str) : startswith p (p ++ r) = true.
Proof.
  induction p as [|a p IH]; simpl; [reflexivity|].
  now rewrite Ascii.eqb_refl.
Qed.

Lemma startswith_inv (p s : str) :
  startswith p s = true -> exists r, s = p ++ r.
Proof.
  revert s; induction p as [|a p IH]; intros s H.
  - now exists s.
  - destruct s as [|b s]; simpl in H; [discriminate|].
    apply andb_true_iff in H as [Hab Hps].
    apply Ascii.eqb_eq in Hab; subst b.
    destruct (IH _ Hps) as [r ->]. now exists r.
Qed.

Lemma startswith_iff (p s : str) :
  startswith p s = true <-> exists r, s = p ++ r.
Proof.
  split; [apply startswith_inv|]. intros [r ->]. apply startswith_app.
Qed.

Lemma contains_startswith (sub s : str) :
  startswith sub s = true -> contains sub s = true.
Proof. intros H. destruct s; simpl; now rewrite H. Qed.

Lemma contains_iff (sub s : str) :
  contains sub s = true <-> exists a b, s = a ++ sub ++ b.
Proof.
  split.
  - induction s as [|c s IH]; simpl; intros H.
    + rewrite orb_false_r in H. apply startswith_inv in H as [r Hr].
      now exists [], r.
    + apply orb_true_iff in H as [H|H].
      * apply startswith_inv in H as [r Hr]. now exists [], r.
      * destruct (IH H) as (a & b & ->). now exists (c :: a), b.
  - intros (a & b & ->). induction a as [|c a IH].
    + apply contains_startswith. simpl app. apply startswith_app.
    + simpl app. simpl contains. rewrite IH. apply orb_true_r.
Qed.

Lemma contains_lit_app (sub a b : str) : contains sub (a ++ sub ++ b) = true.
Proof. apply contains_iff. now exists a, b. Qed.

(** [index_of] returns the first occurrence. *)
Lemma index_of_some (sub s : str) (i : nat) :
  index_of sub s = Some i ->
  exists a b, s = a ++ sub ++ b /\ length a = i /\
              skipn (i + length sub) s = b /\
              forall a' b', s = a' ++ sub ++ b' -> i <= length a'.
Proof.
  revert i; induction s as [|c s IH]; intros i; simpl.
  - destruct (startswith sub []) eqn:E; [|discriminate].
    intros [= <-]. apply startswith_inv in E as [r Hr].
    exists [], r. repeat split; try lia.
    + exact Hr.
    + destruct sub; [simpl in *; now subst|discriminate].
  - destruct (startswith sub (c :: s)) eqn:E.
    + intros [= <-]. apply startswith_inv in E as [r Hr].
      exists [], r. repeat split; try lia; try exact Hr.
      simpl. rewrite Hr at 1. clear. induction sub; simpl; auto.
    + destruct (index_of sub s) as [j|] eqn:Ej; [|discriminate].
      simpl. intros [= <-].
      destruct (IH j eq_refl) as (a & b & Hs & Hl & Hb & Hmin).
      exists (c :: a), b. repeat split.
      * simpl. now rewrite Hs at 1.
      * simpl. now rewrite Hl.
      * exact Hb.
      * intros a' b' H'. destruct a' as [|c' a'].
        -- simpl in H'. rewrite H', startswith_app in E. discriminate.
        -- simpl in H'. injection H' as _ H'. apply Hmin in H'. simpl. lia.
Qed.

Lemma index_of_none (sub s : str) :
  index_of sub s = None <-> contains sub s = false.
Proof.
  induction s as [|c s IH]; simpl.
  - destruct (startswith sub []); simpl; split; congruence.
  - destruct (startswith sub (c :: s)); simpl; [split; congruence|].
    rewrite <- IH. destruct (index_of sub s); simpl; split; congruence.
Qed.

(** [split_after] is defined exactly where [in] says yes, and cuts at the
    first occurrence. *)
Lemma split_after_some (sep s rest : str) :
  split_after sep s = Some rest ->
  exists a, s = a ++ sep ++ rest /\
            forall a' b', s = a' ++ sep ++ b' -> length a <= length a'.
Proof.
  unfold split_after. destruct (index_of sep s) as [i|] eqn:E; [|discriminate].
  intros [= <-]. destruct (index_of_some _ _ _ E) as (a & b & Hs & Hl & Hb & Hmin).
  exists a. rewrite Hb. split; [exact Hs|]. intros a' b' H. rewrite Hl. eauto.
Qed.

Lemma split_after_contains (sep s : str) :
  contains sep s = true -> exists rest, split_after sep s = Some rest.
Proof.
  unfold split_after. intros H.
  destruct (index_of sep s) eqn:E; [eauto|].
  apply index_of_none in E. congruence.
Qed.

Lemma find_some (sub s : str) :
  (find sub s >? -1)%Z = true ->
  exists a b, s = a ++ sub ++ b /\ slice_to (find sub s) s = a /\
              forall a' b', s = a' ++ sub ++ b' -> length a <= length a'.
Proof.
  unfold find, slice_to. destruct (index_of sub s) as [i|] eqn:E; [|discriminate].
  intros _. destruct (index_of_some _ _ _ E) as (a & b & Hs & Hl & Hb & Hmin).
  exists a, b. split; [exact Hs|]. split.
  - rewrite Nat2Z.id, Hs at 1. rewrite <- Hl, firstn_app, Nat.sub_diag, firstn_all.
    simpl. now rewrite app_nil_r.
  - intros a' b' H. rewrite Hl. eauto.
Qed.

Lemma find_none (sub s : str) :
  (find sub s >? -1)%Z = false -> contains sub s = false.
Proof.
  unfold find. destruct (index_of sub s) as [i|] eqn:E.
  - intros H. rewrite Z.gtb_ltb in H. apply Z.ltb_ge in H. lia.
  - intros _. now apply index_of_none.
Qed.

End PyFacts.

(** ** Trimming and lower-casing *)

Module TrimFacts.
Import Py.

Lemma lstrip_split (s : str) :
  exists ws, s = ws ++ lstrip s /\ blank ws.
Proof.
  induction s as [|c s (ws & Hs & Hws)]; simpl.
  - now exists [].
  - destruct (isspace c) eqn:E.
    + exists (c :: ws). split; [simpl; now rewrite <- Hs|]. unfold blank. simpl.
      now rewrite E.
    + now exists [].
Qed.

Lemma lstrip_head (s : str) (c : ascii) (t : str) :
  lstrip s = c :: t -> isspace c = false.
Proof.
  induction s as [|d s IH]; simpl; [discriminate|].
  destruct (isspace d) eqn:E; [exact IH|]. now intros [= <- _].
Qed.

Lemma lstrip_nil (s : str) : lstrip s = [] <-> blank s.
Proof.
  unfold blank. induction s as [|c s IH]; simpl; [tauto|].
  destruct (isspace c); simpl; [exact IH|]. split; discriminate.
Qed.

Lemma lstrip_fixed (s : str) :
  (forall c r, s = c :: r -> isspace c = false) -> lstrip s = s.
Proof.
  destruct s as [|c s]; [reflexivity|]. intros H. simpl.
  now rewrite (H c s eq_refl).
Qed.

Lemma blank_app (a b : str) : blank (a ++ b) <-> blank a /\ blank b.
Proof. unfold blank. rewrite forallb_app. apply andb_true_iff. Qed.

Lemma blank_rev (a : str) : blank (rev a) <-> blank a.
Proof.
  unfold blank. rewrite !forallb_forall. split; intros H x Hx; apply H.
  - now apply (in_rev a).
  - now apply in_rev.
Qed.

Lemma rstrip_split (s : str) :
  exists ws, s = rstrip s ++ ws /\ blank ws.
Proof.
  unfold rstrip. destruct (lstrip_split (rev s)) as (ws & Hs & Hws).
  exists (rev ws). split; [|now apply blank_rev].
  rewrite <- rev_app_distr, <- Hs. now rewrite rev_involutive.
Qed.

Lemma rstrip_last (s r : str) (c : ascii) :
  rstrip s = r ++ [c] -> isspace c = false.
Proof.
  unfold rstrip. intros H. apply (f_equal (@rev ascii)) in H.
  rewrite rev_involutive, rev_app_distr in H. simpl in H.
  now apply lstrip_head in H.
Qed.

Lemma rstrip_nil (s : str) : rstrip s = [] <-> blank s.
Proof.
  unfold rstrip. rewrite <- blank_rev, <- lstrip_nil. split; intros H.
  - apply (f_equal (@rev ascii)) in H. now rewrite rev_involutive in H.
  - now rewrite H.
Qed.

(** [strip] removes a blank prefix and a blank suffix and leaves a trimmed
    string. *)
Lemma strip_split (s : str) :
  exists a b, s = a ++ strip s ++ b /\ blank a /\ blank b.
Proof.
  unfold strip. destruct (lstrip_split s) as (a & Hs & Ha).
  destruct (rstrip_split (lstrip s)) as (b & Hb & Hbb).
  exists a, b. split; [|tauto]. now rewrite <- Hb.
Qed.

Lemma strip_nil (s : str) : strip s = [] <-> blank s.
Proof.
  unfold strip. rewrite rstrip_nil. destruct (lstrip_split s) as (a & Hs & Ha).
  split; intros H.
  - rewrite Hs. apply blank_app. tauto.
  - rewrite Hs in H. apply blank_app in H. tauto.
Qed.

Lemma strip_trimmed (s : str) : trimmed (strip s).
Proof.
  split.
  - intros c r H. unfold strip in *.
    destruct (rstrip_split (lstrip s)) as (ws & Hs & Hws).
    rewrite H in Hs. simpl in Hs. now apply lstrip_head in Hs.
  - intros r c H. now apply rstrip_last in H.
Qed.

Lemma blank_last (r : str) (c : ascii) : blank (r ++ [c]) -> isspace c = true.
Proof.
  intros H. apply blank_app in H as [_ H]. unfold blank in H. simpl in H.
  now rewrite andb_true_r in H.
Qed.

(** A string that ends with a character that is not white space does not
    trim to the empty string. *)
Lemma strip_keeps_last (r : str) (c : ascii) :
  isspace c = false -> strip (r ++ [c]) <> [].
Proof.
  intros Hc H. apply strip_nil, blank_last in H. congruence.
Qed.

Lemma strip_fixed (t : str) : trimmed t -> strip t = t.
Proof.
  intros [Hh Hl]. unfold strip. rewrite (lstrip_fixed _ Hh).
  unfold rstrip. rewrite lstrip_fixed; [apply rev_involutive|].
  intros c r H. apply (Hl (rev r) c).
  rewrite <- (rev_involutive t), H. reflexivity.
Qed.

Lemma lower_char_isspace (c : ascii) : isspace (lower_char c) = isspace c.
Proof. destruct c as [[] [] [] [] [] [] [] []]; reflexivity. Qed.

Lemma lower_length (s : str) : length (lower s) = length s.
Proof. apply length_map. Qed.

Lemma lower_app (a b : str) : lower (a ++ b) = lower a ++ lower b.
Proof. apply map_app. Qed.

Lemma ci_prefix_iff (p text : str) :
  startswith p (lower text) = true <-> ci_prefix p text.
Proof.
  split.
  - intros H. apply PyFacts.startswith_inv in H as [r Hr].
    exists (firstn (length p) text), (skipn (length p) text).
    split; [now rewrite firstn_skipn|].
    unfold lower in *. rewrite <- firstn_map, Hr, firstn_app, Nat.sub_diag.
    rewrite firstn_all. simpl. apply app_nil_r.
  - intros (h & r & -> & <-). rewrite lower_app. apply PyFacts.startswith_app.
Qed.

Lemma ci_prefix_rest (p head rest : str) :
  lower head = p -> slice_from (length p) (head ++ rest) = rest.
Proof.
  intros <-. unfold slice_from. rewrite lower_length, skipn_app, Nat.sub_diag.
  rewrite skipn_all. reflexivity.
Qed.

End TrimFacts.

(** ** The content normalizer *)

Module NormalizeFacts.
Import Py App TrimFacts.

Lemma or_else_nil (s : str) : or_else s [] = s.
Proof. now destruct s. Qed.

Lemma strip_prefix_first (before after : list str) (p lowered text : str) :
  startswith p lowered = true ->
  (forall p', In p' before -> startswith p' lowered = false) ->
  strip_prefix (before ++ p :: after) lowered text
  = strip (slice_from (length p) text).
Proof.
  intros Hp. induction before as [|p0 before IH]; intros Hb; simpl.
  - now rewrite Hp.
  - rewrite (Hb p0 (or_introl eq_refl)). apply IH.
    intros p' Hin. apply Hb. now right.
Qed.

Lemma strip_prefix_none (ps : list str) (lowered text : str) :
  (forall p, In p ps -> startswith p lowered = false) ->
  strip_prefix ps lowered text = text.
Proof.
  induction ps as [|p ps IH]; intros H; simpl; [reflexivity|].
  rewrite (H p (or_introl eq_refl)). apply IH. intros p' Hin. apply H. now right.
Qed.

Lemma not_ci_prefix (p text : str) :
  ~ ci_prefix p text -> startswith p (lower text) = false.
Proof.
  intros H. destruct (startswith p (lower text)) eqn:E; [|reflexivity].
  now apply ci_prefix_iff in E.
Qed.

(** A prefix that ends in white space, cut from a trimmed text, leaves
    something that does not trim to nothing. *)
Lemma cut_prefix_nonempty (p0 : str) (sp : ascii) (text : str) :
  isspace sp = true -> trimmed text ->
  startswith (p0 ++ [sp]) (lower text) = true ->
  strip (slice_from (length (p0 ++ [sp])) text) <> [].
Proof.
  intros Hsp [_ Hlast] H. apply ci_prefix_iff in H as (head & rest & -> & Hl).
  rewrite (ci_prefix_rest _ _ _ Hl).
  assert (Hhead : exists h c, head = h ++ [c] /\ isspace c = true).
  { destruct (exists_last (l := head)) as (h & c & ->).
    - intros ->. now destruct p0.
    - exists h, c. split; [reflexivity|].
      rewrite lower_app in Hl. simpl in Hl. apply app_inj_tail in Hl as [_ Hc].
      rewrite <- lower_char_isspace, Hc. exact Hsp. }
  destruct Hhead as (h & c & -> & Hc).
  induction rest as [|d r _] using rev_ind.
  - rewrite app_nil_r in Hlast. rewrite (Hlast h c eq_refl) in Hc. discriminate.
  - intros E.
    assert (Hd : isspace d = false).
    { apply (Hlast ((h ++ [c]) ++ r) d). now rewrite app_assoc. }
    now apply strip_keeps_last in E.
Qed.

Lemma strip_prefix_nonempty (ps : list str) (text : str) :
  Forall (fun p => exists p0 sp, p = p0 ++ [sp] /\ isspace sp = true) ps ->
  trimmed text -> strip_prefix ps (lower text) text = [] -> text = [].
Proof.
  intros Hps Ht. induction Hps as [|p ps (p0 & sp & -> & Hsp) _ IH]; simpl.
  - easy.
  - destruct (startswith (p0 ++ [sp]) (lower text)) eqn:E; [|exact IH].
    intros H. now apply cut_prefix_nonempty in H.
Qed.

Lemma prefixes_end_in_space :
  Forall (fun p => exists p0 sp, p = p0 ++ [sp] /\ isspace sp = true) prefixes.
Proof.
  unfold prefixes.
  repeat (apply Forall_cons;
          [ match goal with
            | |- exists _ _, ?p = _ /\ _ =>
                exists (removelast p), (last p " "%char); split; reflexivity
            end | ]).
  apply Forall_nil.
Qed.

Lemma normalize_empty_only_if_blank (raw : str) :
  _normalize_store_content raw = [] -> blank raw.
Proof.
  unfold _normalize_store_content. rewrite or_else_nil. intros H.
  apply strip_prefix_nonempty in H.
  - now apply strip_nil.
  - apply prefixes_end_in_space.
  - apply strip_trimmed.
Qed.

End NormalizeFacts.

(** ** The result parser *)

Module ExtractFacts.
Import Py App TrimFacts.

Lemma app_same_length (a a' b b' : str) :
  a ++ b = a' ++ b' -> length a = length a' -> a = a' /\ b = b'.
Proof.
  revert a'; induction a as [|x a IH]; intros [|y a'] H Hl; try discriminate.
  - now split.
  - simpl in *. injection H as -> H. injection Hl as Hl.
    destruct (IH _ H Hl) as [-> ->]. now split.
Qed.

Lemma first_split_unique (sep s a b a' b' : str) :
  first_split sep s a b -> first_split sep s a' b' -> a = a' /\ b = b'.
Proof.
  intros [H1 M1] [H2 M2].
  assert (Hl : length a = length a').
  { apply Nat.le_antisymm; [eapply M1|eapply M2]; eassumption. }
  rewrite H1 in H2. destruct (app_same_length _ _ _ _ H2 Hl) as [-> Hb].
  split; [reflexivity|]. now apply app_inv_head in Hb.
Qed.

Lemma split_after_first (sep s rest : str) :
  split_after sep s = Some rest <-> exists a, first_split sep s a rest.
Proof.
  split.
  - intros H. destruct (PyFacts.split_after_some _ _ _ H) as (a & Hs & Hmin).
    now exists a.
  - intros (a & Hf).
    destruct (PyFacts.split_after_contains sep s) as (rest' & H').
    { apply PyFacts.contains_iff. exists a, rest. apply Hf. }
    destruct (PyFacts.split_after_some _ _ _ H') as (a' & Hs & Hmin).
    destruct (first_split_unique _ _ _ _ _ _ Hf (conj Hs Hmin)) as [_ ->].
    exact H'.
Qed.

Lemma first_split_contains (sep s a b : str) :
  first_split sep s a b -> contains sep s = true.
Proof. intros [H _]. apply PyFacts.contains_iff. eauto. Qed.

(** For a separator of one character, the first occurrence is the one
    with no such character before it. *)
Lemma first_split_char (c : ascii) (s a b : str) :
  first_split [c] s a b <-> s = a ++ c :: b /\ ~ In c a.
Proof.
  split.
  - intros [Hs Hmin]. split; [exact Hs|]. intros Hin.
    apply in_split in Hin as (a1 & a2 & ->).
    specialize (Hmin a1 (a2 ++ c :: b)).
    rewrite length_app in Hmin. simpl in Hmin.
    assert (length a1 + S (length a2) <= length a1); [|lia].
    apply Hmin. rewrite Hs. now rewrite <- app_assoc.
  - intros [Hs Hnot]. split; [exact Hs|]. intros a' b' H'.
    destruct (Nat.le_gt_cases (length a) (length a')) as [|Hlt]; [assumption|].
    exfalso. rewrite Hs in H'. apply app_eq_app in H' as (l & [[Ha Hb]|[Ha Hb]]).
    + destruct l as [|x l].
      * rewrite app_nil_r in Ha. subst. lia.
      * simpl in Hb. injection Hb as <- _. apply Hnot. rewrite Ha.
        apply in_or_app. right. now left.
    + subst a'. rewrite length_app in Hlt. lia.
Qed.

Lemma code_after_open_quote (part : str) :
  (if startswith [dquote] part then slice_from 1 part else part)
  = after_open_quote part.
Proof.
  destruct part as [|c r]; [reflexivity|].
  change (startswith [dquote] (c :: r)) with (Ascii.eqb dquote c && true).
  rewrite andb_true_r, (Ascii.eqb_sym dquote c). unfold after_open_quote.
  destruct (Ascii.eqb c dquote); reflexivity.
Qed.

Lemma not_in_contains (c : ascii) (s : str) :
  ~ In c s <-> contains [c] s = false.
Proof.
  split.
  - intros H. destruct (contains [c] s) eqn:E; [|reflexivity].
    apply PyFacts.contains_iff in E as (a & b & ->). exfalso. apply H.
    apply in_or_app. right. now left.
  - intros H Hin. apply in_split in Hin as (a & b & ->).
    change (a ++ c :: b) with (a ++ [c] ++ b) in H.
    rewrite PyFacts.contains_lit_app in H. discriminate.
Qed.

Lemma quoted_content_value (snippet : str) :
  quoted_value snippet (quoted_content snippet).
Proof.
  unfold quoted_content.
  destruct (contains content_key snippet) eqn:Ek; [|now apply qv_no_key].
  destruct (PyFacts.split_after_contains _ _ Ek) as (t & Ht). rewrite Ht.
  apply split_after_first in Ht as (b & Hb).
  rewrite code_after_open_quote.
  set (part := after_open_quote (lstrip t)).
  destruct (find [dquote] part >? -1)%Z eqn:Ef.
  - destruct (PyFacts.find_some _ _ Ef) as (v & u & Hp & -> & Hmin).
    apply (qv_closed snippet b t v u Hb Hp).
    apply (first_split_char dquote part v u). now split.
  - apply PyFacts.find_none in Ef. apply (qv_open snippet b t Hb).
    now apply not_in_contains.
Qed.

Lemma quoted_value_unique (snippet : str) (q : option str) :
  quoted_value snippet q -> quoted_content snippet = q.
Proof.
  pose proof (quoted_content_value snippet) as Hc.
  intros Hq. destruct Hq as [Hk|b t Hb Hn|b t v u Hb Hp Hn];
    inversion Hc as [Hk'|b' t' Hb' Hn' Hq'|b' t' v' u' Hb' Hp' Hn' Hq'];
    try reflexivity;
    try (apply first_split_contains in Hb'; congruence);
    try (apply first_split_contains in Hb; congruence);
    destruct (first_split_unique _ _ _ _ _ _ Hb Hb') as [-> ->].
  - exfalso. apply Hn. rewrite Hp'. apply in_or_app. right. now left.
  - exfalso. apply Hn'. rewrite Hp. apply in_or_app. right. now left.
  - assert (Hv : first_split [dquote] (after_open_quote (lstrip t')) v u)
      by now apply first_split_char.
    assert (Hv' : first_split [dquote] (after_open_quote (lstrip t')) v' u')
      by now apply first_split_char.
    now destruct (first_split_unique _ _ _ _ _ _ Hv Hv') as [-> _].
Qed.

Lemma line_entry_of (line : str) : entry_of line (line_entry line).
Proof.
  unfold line_entry.
  destruct (contains preview_marker line) eqn:Em; [|now apply e_unmarked].
  destruct (PyFacts.split_after_contains _ _ Em) as (rest & Hr). rewrite Hr.
  apply split_after_first in Hr as (a & Ha).
  pose proof (quoted_content_value (strip rest)) as Hq.
  destruct (quoted_content (strip rest)) as [e|].
  - now apply (e_quoted line a rest).
  - destruct (strip rest) eqn:Es; simpl.
    + now apply (e_empty line a rest).
    + rewrite <- Es. apply (e_plain line a rest Ha); rewrite Es; [exact Hq|easy].
Qed.

Lemma entry_of_unique (line : str) (e : option str) :
  entry_of line e -> line_entry line = e.
Proof.
  intros He. unfold line_entry.
  destruct He as [Hm|a rest e Ha Hq|a rest Ha Hq Hne|a rest Ha Hb].
  - now rewrite Hm.
  - rewrite (first_split_contains _ _ _ _ Ha).
    rewrite (proj2 (split_after_first _ _ _) (ex_intro _ a Ha)).
    now rewrite (quoted_value_unique _ _ Hq).
  - rewrite (first_split_contains _ _ _ _ Ha).
    rewrite (proj2 (split_after_first _ _ _) (ex_intro _ a Ha)).
    rewrite (quoted_value_unique _ _ Hq).
    destruct (strip rest); [easy|reflexivity].
  - rewrite (first_split_contains _ _ _ _ Ha).
    rewrite (proj2 (split_after_first _ _ _) (ex_intro _ a Ha)).
    now rewrite Hb.
Qed.

Lemma kept_In (e : str) (es : list (option str)) :
  In e (kept es) <-> In (Some e) es.
Proof.
  unfold kept. rewrite in_flat_map. split.
  - intros ([x|] & Hin & Hx); simpl in Hx; [|easy].
    destruct Hx as [->|[]]. exact Hin.
  - intros H. exists (Some e). split; [exact H|now left].
Qed.

(** The empty string is the entry of a line only as a quoted value. *)
Lemma line_entry_empty (line : str) :
  line_entry line = Some [] <->
  exists a rest b t v u,
    first_split preview_marker line a rest
    /\ first_split content_key (strip rest) b t
    /\ after_open_quote (lstrip t) = v ++ dquote :: u
    /\ ~ In dquote v /\ blank v.
Proof.
  split.
  - intros Hl. pose proof (line_entry_of line) as He. rewrite Hl in He.
    inversion He as [|a rest e Ha Hq Heq|a rest Ha Hq Hne Heq|].
    + inversion Hq as [| |b t v u Hb Hp Hn Hs].
      exists a, rest, b, t, v, u.
      split; [exact Ha|]. split; [exact Hb|]. split; [exact Hp|].
      split; [exact Hn|]. now apply strip_nil.
    + now rewrite Heq in Hne.
  - intros (a & rest & b & t & v & u & Ha & Hb & Hp & Hn & Hv).
    apply entry_of_unique. apply strip_nil in Hv. rewrite <- Hv.
    apply (e_quoted line a rest _ Ha). now apply (qv_closed _ b t v u).
Qed.

(** A line without the marker, or with white space only after it, adds
    nothing. *)
Lemma line_entry_blank (line : str) :
  contains preview_marker line = false
  \/ (exists a rest, first_split preview_marker line a rest /\ blank rest) ->
  line_entry line = None.
Proof.
  intros [H|(a & rest & Ha & Hb)]; apply entry_of_unique.
  - now apply e_unmarked.
  - apply (e_empty line a rest Ha). now apply strip_nil.
Qed.

Lemma fold_append_entry (lines : list str) (acc : list str) :
  fold_left append_entry lines acc = acc ++ kept (map line_entry lines).
Proof.
  revert acc; induction lines as [|l lines IH]; intros acc; simpl.
  - now rewrite app_nil_r.
  - rewrite IH. unfold append_entry. destruct (line_entry l); simpl.
    + now rewrite <- app_assoc.
    + reflexivity.
Qed.

Lemma extract_kept (raw : str) :
  _extract_memory_entries raw = kept (map line_entry (splitlines raw)).
Proof.
  unfold _extract_memory_entries. destruct raw as [|c raw]; [reflexivity|].
  simpl negb. cbv iota. apply (fold_append_entry _ []).
Qed.

End ExtractFacts.

(** ** The matcher *)

Module ReFacts.
Import Py Re TrimFacts.

Section Repeat.
Variable R : Type.
Variable p : charset.

(** A successful greedy repetition took a non-empty run of the class and
    the continuation accepted what was left. *)
Lemma repeat1_sound (k : str -> option R) (s : str) (res : R) :
  repeat1 p k s = Some res ->
  exists w s', s = w ++ s' /\ w <> [] /\ Forall (fun c => p c = true) w /\
               k s' = Some res.
Proof.
  induction s as [|c s IH]; simpl; [discriminate|].
  destruct (p c) eqn:Ec; [|discriminate].
  destruct (repeat1 p k s) as [r|] eqn:Er.
  - intros [= <-]. destruct (IH eq_refl) as (w & s' & -> & _ & Hw & Hk).
    exists (c :: w), s'. repeat split; try easy. now constructor.
  - intros Hk. exists [c], s. repeat split; try easy. now constructor.
Qed.

(** When some split is accepted, the repetition succeeds. *)
Lemma repeat1_complete (k : str -> option R) (w s' : str) :
  w <> [] -> Forall (fun c => p c = true) w -> k s' <> None ->
  repeat1 p k (w ++ s') <> None.
Proof.
  intros Hne Hw Hk. induction Hw as [|c w Hc Hw IH]; [easy|].
  simpl. rewrite Hc. destruct w as [|d w].
  - simpl in *. destruct (repeat1 p k s'); [easy|exact Hk].
  - destruct (repeat1 p k ((d :: w) ++ s')) eqn:E; [easy|].
    exfalso. now apply IH.
Qed.

(** When the continuation accepts everything, the repetition takes the
    whole run. *)
Lemma repeat1_maximal (k : str -> option R) (s : str) (res : R) :
  (forall x, k x <> None) ->
  repeat1 p k s = Some res ->
  exists w s', s = w ++ s' /\ w <> [] /\ Forall (fun c => p c = true) w /\
               k s' = Some res /\
               (s' = [] \/ exists c r, s' = c :: r /\ p c = false).
Proof.
  intros Hk. induction s as [|c s IH]; simpl; [discriminate|].
  destruct (p c) eqn:Ec; [|discriminate].
  destruct (repeat1 p k s) as [r|] eqn:Er.
  - intros [= <-]. destruct (IH eq_refl) as (w & s' & -> & _ & Hw & Hr & Hm).
    exists (c :: w), s'. repeat split; try easy. now constructor.
  - intros Hr. exists [c], s. repeat split; try easy; [now constructor|].
    destruct s as [|d s]; [now left|right].
    exists d, s. split; [reflexivity|].
    simpl in Er. destruct (p d); [|reflexivity].
    destruct (repeat1 p k s); [discriminate|]. now apply Hk in Er.
Qed.

End Repeat.

Lemma ignorecase_iff (c x : ascii) :
  ignorecase c x = true <-> lower_char x = lower_char c.
Proof. apply Ascii.eqb_eq. Qed.

Section Run.
Variable R : Type.

Lemma run_word_sound (w : str) (s : str) (g : groups)
      (k : str -> groups -> option R) (res : R) :
  run (word w) s g k = Some res ->
  exists head s', s = head ++ s' /\ lower head = lower w /\ k s' g = Some res.
Proof.
  revert s; induction w as [|c w IH]; intros s; simpl.
  - intros H. now exists [], s.
  - destruct s as [|x s]; [discriminate|].
    destruct (ignorecase c x) eqn:E; [|discriminate].
    intros H. destruct (IH _ H) as (head & s' & -> & Hl & Hk).
    exists (x :: head), s'. repeat split; [|exact Hk].
    simpl. apply ignorecase_iff in E. now rewrite E, Hl.
Qed.

Lemma run_word_complete (w head s' : str) (g : groups)
      (k : str -> groups -> option R) :
  lower head = lower w -> run (word w) (head ++ s') g k = k s' g.
Proof.
  revert head; induction w as [|c w IH]; intros [|x head] H; try discriminate.
  - reflexivity.
  - simpl in *. injection H as Hx H.
    apply ignorecase_iff in Hx. rewrite Hx. now apply IH.
Qed.

Lemma firstn_consumed (w s' : str) :
  firstn (length (w ++ s') - length s') (w ++ s') = w.
Proof.
  rewrite length_app, Nat.add_sub, firstn_app, Nat.sub_diag, firstn_all.
  apply app_nil_r.
Qed.

End Run.

(** A match of a [fact] pattern at the head of [s]. *)
Lemma match_here_sound (ws : list str) (s : str) (g0 m : groups) :
  run (fact ws) s g0 (fun _ g => Some g) = Some m ->
  exists t v post, s = t ++ post /\ fact_text ws t v /\ m = (1, v) :: g0 /\
                   value_ends post.
Proof.
  revert s; induction ws as [|w ws IH]; intros s; simpl.
  - intros H. apply repeat1_maximal in H; [|easy].
    destruct H as (v & post & -> & Hne & Hv & Hm & Hend).
    rewrite firstn_consumed in Hm. injection Hm as <-.
    exists v, v, post. repeat split; try easy. now constructor.
  - intros H. apply run_word_sound in H as (head & s1 & -> & Hl & H).
    apply repeat1_sound in H as (sp & s2 & -> & Hne & Hsp & H).
    destruct (IH _ H) as (t & v & post & -> & Ht & -> & Hend).
    exists (head ++ sp ++ t), v, post. repeat split; try easy.
    + now rewrite <- !app_assoc.
    + now constructor.
Qed.

Lemma match_here_complete (ws : list str) (t v post : str) (g0 : groups)
      (R : Type) (k : str -> groups -> option R) :
  fact_text ws t v -> (forall x g, k x g <> None) ->
  run (fact ws) (t ++ post) g0 k <> None.
Proof.
  intros Ht Hk. induction Ht as [v Hne Hv|w ws head sp rest v Hl Hne Hsp Ht IH];
    simpl.
  - apply repeat1_complete; try easy.
  - rewrite <- !app_assoc. rewrite run_word_complete by exact Hl.
    apply repeat1_complete; try easy.
Qed.

(** [search] returns the match at the first position that has one. *)
Lemma search_sound (r : regex) (s : str) (m : groups) :
  search r s = Some m ->
  exists pre s1, s = pre ++ s1 /\ match_here r s1 = Some m /\
    forall pre2 s2, s = pre2 ++ s2 -> length pre2 < length pre ->
                    match_here r s2 = None.
Proof.
  induction s as [|c s IH]; simpl.
  - destruct (match_here r []) eqn:E; [|discriminate].
    intros [= <-]. exists [], []. repeat split; try easy; simpl; intros; lia.
  - destruct (match_here r (c :: s)) eqn:E.
    + intros [= <-]. exists [], (c :: s). repeat split; try easy; simpl; intros; lia.
    + intros H. destruct (IH H) as (pre & s1 & -> & Hm & Hmin).
      exists (c :: pre), s1. repeat split; try easy.
      intros [|x pre2] s2 H2 Hlt; simpl in *.
      * now subst s2.
      * injection H2 as -> H2. apply (Hmin pre2 s2 H2). lia.
Qed.

Lemma search_none (r : regex) (s : str) :
  search r s = None ->
  forall pre s1, s = pre ++ s1 -> match_here r s1 = None.
Proof.
  induction s as [|c s IH]; simpl.
  - destruct (match_here r []) eqn:E; [discriminate|].
    intros _ [|x pre] s1 H; simpl in H; [now subst s1|discriminate].
  - destruct (match_here r (c :: s)) eqn:E; [discriminate|].
    intros H [|x pre] s1 H1; simpl in *.
    + now subst s1.
    + injection H1 as -> H1. now apply (IH H pre s1).
Qed.

Lemma search_fact_none (ws : list str) (blob : str) :
  search (fact ws) blob = None -> ~ occurs ws blob.
Proof.
  intros H (pre & t & v & post & Hb & Ht).
  apply (search_none _ _ H pre (t ++ post)) in Hb.
  revert Hb. now apply match_here_complete with (v := v).
Qed.

Lemma search_fact_some (ws : list str) (blob : str) (m : groups) :
  search (fact ws) blob = Some m ->
  exists v, m = [(1, v)] /\ captured ws blob v.
Proof.
  intros H. apply search_sound in H as (pre & s1 & -> & Hm & Hmin).
  apply match_here_sound in Hm as (t & v & post & -> & Ht & -> & Hend).
  exists v. split; [reflexivity|]. exists pre, t, post. repeat split; try easy.
  intros pre2 t2 v2 post2 H2 Ht2.
  destruct (Nat.le_gt_cases (length pre) (length pre2)) as [|Hlt]; [assumption|].
  exfalso. apply (Hmin _ _ H2) in Hlt. revert Hlt.
  now apply match_here_complete with (v := v2).
Qed.

Lemma search_fact_occurs (ws : list str) (blob : str) :
  occurs ws blob -> exists v, search (fact ws) blob = Some [(1, v)] /\
                              captured ws blob v.
Proof.
  intros Ho. destruct (search (fact ws) blob) as [m|] eqn:E.
  - destruct (search_fact_some _ _ _ E) as (v & -> & Hc). now exists v.
  - now apply search_fact_none in E.
Qed.

End ReFacts.

(** ** The handlers *)

Module AgentFacts.
Import Py App Agent TrimFacts.

Lemma get_current_kb_id_run (o : oracle) (w : world) :
  get_current_kb_id o w = (Ok (kb_id_of w), looked_up w).
Proof.
  unfold get_current_kb_id, looked_up, kb_id_of, bind, get_world, emit, ret.
  destruct (negb (truthy (environ_get w))); reflexivity.
Qed.

Lemma looked_up_log (w : world) :
  log (looked_up w) = log w \/ exists msg, log (looked_up w) = log w ++ [Warned msg].
Proof.
  unfold looked_up. destruct (negb (truthy (environ_get w))); [right|now left].
  eexists. reflexivity.
Qed.

Lemma looked_up_warnings (w : world) :
  log (looked_up w) = log w ++ lookup_warnings w.
Proof.
  unfold looked_up, lookup_warnings.
  destruct (truthy (environ_get w)); simpl; [now rewrite app_nil_r|reflexivity].
Qed.

Lemma looked_up_session (w : world) :
  kb_min_score (looked_up w) = kb_min_score w /\
  kb_max_results (looked_up w) = kb_max_results w.
Proof. unfold looked_up. now destruct (negb (truthy (environ_get w))). Qed.

Lemma get_kb_agent_run (kb_id : str) (o : oracle) (w : world) :
  get_kb_agent kb_id o w = (Ok tt, with_agent kb_id w).
Proof.
  unfold with_agent, get_kb_agent, bind, get_world, ret, set_environ_kb, cache_add.
  destruct (existsb (str_eqb kb_id) (agent_cache w)); reflexivity.
Qed.

Lemma with_agent_same (kb_id : str) (w : world) :
  log (with_agent kb_id w) = log w /\
  kb_min_score (with_agent kb_id w) = kb_min_score w /\
  kb_max_results (with_agent kb_id w) = kb_max_results w.
Proof.
  unfold with_agent, get_kb_agent, bind, get_world, ret, set_environ_kb, cache_add.
  destruct (existsb (str_eqb kb_id) (agent_cache w)); now simpl.
Qed.

Lemma ready_warnings (w : world) :
  log (ready w) = log w ++ lookup_warnings w.
Proof.
  unfold ready. destruct (with_agent_same (kb_id_of w) (looked_up w)) as [-> _].
  apply looked_up_warnings.
Qed.

Lemma str_eqb_eq (a b : str) : str_eqb a b = true <-> a = b.
Proof. unfold str_eqb. destruct (list_eq_dec ascii_dec a b); split; congruence. Qed.

Lemma looks_like_kb_query_iff (query : str) :
  _looks_like_kb_query query = true <->
  exists k, In k kb_keywords /\ contains k (lower query) = true.
Proof.
  unfold _looks_like_kb_query. rewrite NormalizeFacts.or_else_nil.
  apply existsb_exists.
Qed.

Lemma determine_action_fallback (query : str) (o : oracle) (w : world) :
  _looks_like_kb_query query = false ->
  determine_action query o w =
  match o (log (ready w)) (routing_call query) with
  | Returns out => (Ok (route_of out), record (Called (routing_call query)) (ready w))
  | Raises e => (Exn e, record (Called (routing_call query)) (ready w))
  end.
Proof.
  intros H. unfold determine_action. rewrite H.
  unfold bind at 1. rewrite get_current_kb_id_run.
  unfold bind at 1. rewrite get_kb_agent_run.
  unfold bind, external. fold (routing_call query). fold (ready w).
  destruct (o (log (ready w)) (routing_call query)); reflexivity.
Qed.

Lemma run_kb_agent_invalid (query : str) (o : oracle) (w : world) :
  is_valid_kb_id (kb_id_of w) = false ->
  run_kb_agent query o w =
  (Ok (lit "Knowledge base is not configured. Provide a valid alphanumeric Knowledge Base ID "
       ++ lit "(no hyphens or special characters, got '" ++ kb_id_of w ++ lit "')."),
   looked_up w).
Proof.
  intros H. unfold run_kb_agent. unfold bind at 1. rewrite get_current_kb_id_run.
  now rewrite H.
Qed.

Lemma run_kb_agent_valid (query : str) (o : oracle) (w : world) :
  is_valid_kb_id (kb_id_of w) = true ->
  run_kb_agent query o w =
  let w1 := record (Called (kb_action_call query)) (ready w) in
  match o (log (ready w)) (kb_action_call query) with
  | Raises e => (Exn e, w1)
  | Returns out =>
      if contains (lit "store") (strip (lower out)) then
        match o (log w1) (store_call query) with
        | Returns _ =>
            (Ok (lit "I've stored this information."),
             record (Called (store_call query)) w1)
        | Raises e => (Exn e, record (Called (store_call query)) w1)
        end
      else
        match o (log w1) (retrieve_call query w) with
        | Returns result_str =>
            answer_retrieval (kb_id_of w) query result_str o
                             (record (Called (retrieve_call query w)) w1)
        | Raises e => (Exn e, record (Called (retrieve_call query w)) w1)
        end
  end.
Proof.
  intros H. unfold run_kb_agent. unfold bind at 1. rewrite get_current_kb_id_run.
  rewrite H. change (negb true) with false. cbv iota.
  unfold bind at 1. rewrite get_kb_agent_run. fold (ready w).
  unfold bind at 1. unfold external at 1. fold (kb_action_call query).
  destruct (o (log (ready w)) (kb_action_call query)) as [out|e]; [|reflexivity].
  cbv zeta. destruct (contains (lit "store") (strip (lower out))).
  - unfold bind, external, ret. fold (store_call query).
    destruct (o _ (store_call query)); reflexivity.
  - unfold bind at 1. unfold get_world. unfold bind at 1. unfold external.
    assert (Hs : retrieve_call query (record (Called (kb_action_call query)) (ready w))
                 = retrieve_call query w).
    { unfold retrieve_call, record, ready. simpl.
      destruct (with_agent_same (kb_id_of w) (looked_up w)) as (_ & -> & ->).
      now destruct (looked_up_session w) as [-> ->]. }
    fold (retrieve_call query (record (Called (kb_action_call query)) (ready w))).
    rewrite Hs.
    destruct (o _ (retrieve_call query w)); reflexivity.
Qed.

Lemma failure_message_has_id (kb_id result_str : str) :
  contains kb_id (failure_message kb_id result_str) = true.
Proof.
  apply PyFacts.contains_iff. unfold failure_message.
  exists (lit "Knowledge base request failed. Please verify the ID, region, and permissions. "
          ++ lit "Current ID: "), (lit ". Error: " ++ result_str).
  now rewrite <- app_assoc.
Qed.

Lemma failure_message_has_response (kb_id result_str : str) :
  contains result_str (failure_message kb_id result_str) = true.
Proof.
  apply PyFacts.contains_iff. unfold failure_message.
  exists (lit "Knowledge base request failed. Please verify the ID, region, and permissions. "
          ++ lit "Current ID: " ++ kb_id ++ lit ". Error: "), [].
  now rewrite app_nil_r, <- !app_assoc.
Qed.

Lemma answer_retrieval_error (kb_id query result_str : str) (o : oracle) (w : world) :
  reports_error result_str = true ->
  answer_retrieval kb_id query result_str o w
  = (Ok (failure_message kb_id result_str), w).
Proof.
  unfold reports_error, answer_retrieval. intros ->. reflexivity.
Qed.

Lemma answer_retrieval_no_results (kb_id query result_str : str) (o : oracle)
      (w : world) :
  reports_error result_str = false ->
  contains (lit "No results found") result_str = true ->
  answer_retrieval kb_id query result_str o w = (Ok no_results_message, w).
Proof.
  unfold reports_error, answer_retrieval. intros -> ->. reflexivity.
Qed.

(** After the retrieval the handler stores nothing and retrieves nothing
    more. *)
Lemma answer_retrieval_log (kb_id query result_str : str) (o : oracle) (w : world) :
  exists new, log (snd (answer_retrieval kb_id query result_str o w)) = log w ++ new
              /\ stored new = [] /\ retrievals new = [].
Proof.
  unfold answer_retrieval.
  destruct (_ || _ || _); [exists []; simpl; now rewrite app_nil_r|].
  destruct (contains (lit "No results found") result_str);
    [exists []; simpl; now rewrite app_nil_r|].
  destruct (_answer_from_memory query (_extract_memory_entries result_str)) as [a|].
  - destruct (truthy a); exists []; simpl; now rewrite app_nil_r.
  - destruct (_extract_memory_entries result_str);
      [exists []; simpl; now rewrite app_nil_r|].
    unfold external. match goal with |- context [o (log w) ?c] =>
      destruct (o (log w) c); exists [Called c]; simpl; auto end.
Qed.

Lemma stored_app (a b : list event) : stored (a ++ b) = stored a ++ stored b.
Proof.
  induction a as [|e a IH]; [reflexivity|].
  destruct e as [c| |]; simpl; [destruct c; simpl|..]; now rewrite ?IH.
Qed.

Lemma stores_nonempty_app (a b : list event) :
  stores_nonempty a -> stores_nonempty b -> stores_nonempty (a ++ b).
Proof.
  unfold stores_nonempty. rewrite stored_app. intros Ha Hb.
  apply Forall_app. now split.
Qed.

Lemma careful_same {A} (m : M A) :
  (forall o w, log (snd (m o w)) = log w) -> careful m.
Proof.
  intros H o w. exists []. rewrite H, app_nil_r. split; [reflexivity|constructor].
Qed.

Lemma careful_ret {A} (a : A) : careful (ret a).
Proof. now apply careful_same. Qed.

Lemma careful_bind {A B} (m : M A) (f : A -> M B) :
  careful m -> (forall a, careful (f a)) -> careful (bind m f).
Proof.
  intros Hm Hf o w. unfold bind. destruct (Hm o w) as (n1 & H1 & S1).
  destruct (m o w) as [[a|e] w1]; simpl in H1.
  - destruct (Hf a o w1) as (n2 & H2 & S2). exists (n1 ++ n2).
    rewrite H2, H1, app_assoc. split; [reflexivity|].
    now apply stores_nonempty_app.
  - now exists n1.
Qed.

Lemma careful_catch {A} (m : M A) (h : str -> M A) :
  careful m -> (forall e, careful (h e)) -> careful (catch m h).
Proof.
  intros Hm Hh o w. unfold catch. destruct (Hm o w) as (n1 & H1 & S1).
  destruct (m o w) as [[a|e] w1]; simpl in H1.
  - now exists n1.
  - destruct (Hh e o w1) as (n2 & H2 & S2). exists (n1 ++ n2).
    rewrite H2, H1, app_assoc. split; [reflexivity|].
    now apply stores_nonempty_app.
Qed.

Lemma careful_emit (e : event) :
  (forall c, e <> Called (memory_store c)) -> careful (emit e).
Proof.
  intros H o w. exists [e]. split; [reflexivity|].
  unfold stores_nonempty. destruct e as [c| |]; simpl; try constructor.
  destruct c; simpl; try (constructor; fail).
  exfalso. now apply (H content).
Qed.

Lemma careful_external (c : call) :
  (forall content, c = memory_store content -> content <> []) ->
  careful (external c).
Proof.
  intros H o w. exists [Called c]. unfold external.
  split; [destruct (o (log w) c); reflexivity|].
  unfold stores_nonempty. destruct c; simpl; constructor; [|constructor].
  now apply H.
Qed.

Lemma careful_messages_append (role content : str) :
  careful (messages_append role content).
Proof. now apply careful_same. Qed.

Lemma careful_get_current_kb_id : careful get_current_kb_id.
Proof.
  intros o w. rewrite get_current_kb_id_run. simpl.
  destruct (looked_up_log w) as [->|(msg & ->)].
  - exists []. rewrite app_nil_r. split; [reflexivity|constructor].
  - exists [Warned msg]. split; [reflexivity|constructor].
Qed.

Lemma careful_get_kb_agent (kb_id : str) : careful (get_kb_agent kb_id).
Proof.
  apply careful_same. intros o w. rewrite get_kb_agent_run. simpl.
  apply with_agent_same.
Qed.

Lemma careful_determine_action (query : str) : careful (determine_action query).
Proof.
  unfold determine_action. destruct (_looks_like_kb_query query).
  - apply careful_ret.
  - apply careful_bind; [apply careful_get_current_kb_id|intros kb_id].
    apply careful_bind; [apply careful_get_kb_agent|intros _].
    apply careful_bind; [now apply careful_external|intros result].
    apply careful_ret.
Qed.

Lemma careful_answer_retrieval (kb_id query result_str : str) :
  careful (answer_retrieval kb_id query result_str).
Proof.
  intros o w.
  destruct (answer_retrieval_log kb_id query result_str o w) as (new & H & Hs & _).
  exists new. split; [exact H|]. unfold stores_nonempty. rewrite Hs. constructor.
Qed.

(** The content stored for a query that is not empty is not empty. *)
Lemma stored_content_nonempty (query : str) :
  query <> [] -> or_else (_normalize_store_content query) query <> [].
Proof.
  intros H. unfold or_else.
  destruct (_normalize_store_content query) eqn:E; simpl; [exact H|easy].
Qed.

Lemma careful_run_kb_agent (query : str) :
  query <> [] -> careful (run_kb_agent query).
Proof.
  intros Hq. unfold run_kb_agent.
  apply careful_bind; [apply careful_get_current_kb_id|intros kb_id].
  destruct (negb (is_valid_kb_id kb_id)); [apply careful_ret|].
  apply careful_bind; [apply careful_get_kb_agent|intros _].
  apply careful_bind; [now apply careful_external|intros result].
  cbv zeta. destruct (contains (lit "store") (strip (lower result))).
  - apply careful_bind; [|intros; apply careful_ret].
    apply careful_external. intros content [= <-].
    now apply stored_content_nonempty.
  - apply careful_bind; [now apply careful_same|intros w].
    apply careful_bind; [now apply careful_external|intros r].
    apply careful_answer_retrieval.
Qed.

Lemma careful_handle_query (query : option str) : careful (handle_query query).
Proof.
  destruct query as [query|]; [|apply careful_ret].
  unfold handle_query. destruct (truthy query) eqn:Et; [|apply careful_ret].
  assert (Hq : query <> []) by (now destruct query).
  apply careful_bind; [apply careful_messages_append|intros _].
  apply careful_bind; [now apply careful_emit|intros _].
  apply careful_catch.
  - apply careful_bind; [apply careful_determine_action|intros action].
    apply careful_bind.
    + destruct (str_eqb action (lit "teacher")).
      * now apply careful_external.
      * now apply careful_run_kb_agent.
    + intros content.
      apply careful_bind; [now apply careful_emit|intros _].
      apply careful_messages_append.
  - intros e. apply careful_bind; [now apply careful_emit|intros _].
    apply careful_messages_append.
Qed.

End AgentFacts.

(** ** The direct answers *)

Module AnswerFacts.
Import Py Re App TrimFacts ReFacts.

Lemma answer_from_memory_questions (query : str) (memories : list str) :
  _answer_from_memory query memories =
  let q := lower query in
  let blob := join [newline] memories in
  match question (contains (lit "birthday") q) [lit "birthday"; lit "is"]
                 say_birthday blob with
  | Some answer => Some answer
  | None =>
      match question (contains (lit "where do i live") q
                      || contains (lit "where i live") q)
                     [lit "i"; lit "live"; lit "in"] say_residence blob with
      | Some answer => Some answer
      | None => question (contains (lit "my name") q)
                         [lit "my"; lit "name"; lit "is"] say_name blob
      end
  end.
Proof.
  unfold _answer_from_memory. rewrite NormalizeFacts.or_else_nil. reflexivity.
Qed.

(** A question type answers exactly when its trigger is in the query and
    its pattern occurs in the blob, with the value of the first match. *)
Lemma question_answers (b : bool) (ws : list str) (say : str -> str) (blob : str) :
  b = true -> occurs ws blob ->
  exists v, Re.search (Re.fact ws) blob = Some [(1, v)] /\ captured ws blob v /\
            question b ws say blob = Some (say v).
Proof.
  intros -> Ho. destruct (search_fact_occurs ws blob Ho) as (v & Hs & Hc).
  exists v. unfold question. rewrite Hs. now repeat split.
Qed.

Lemma question_silent (b : bool) (ws : list str) (say : str -> str) (blob : str) :
  ~ (b = true /\ occurs ws blob) -> question b ws say blob = None.
Proof.
  intros H. unfold question. destruct b; [|reflexivity].
  destruct (Re.search (Re.fact ws) blob) as [m|] eqn:E; [|reflexivity].
  exfalso. apply H. split; [reflexivity|].
  destruct (search_fact_some _ _ _ E) as (v & _ & pre & t & post & Hb & Ht & _).
  now exists pre, t, v, post.
Qed.

Lemma search_occurs (ws : list str) (blob : str) (m : Re.groups) :
  Re.search (Re.fact ws) blob = Some m -> occurs ws blob.
Proof.
  intros E.
  destruct (search_fact_some _ _ _ E) as (v & _ & pre & t & post & Hb & Ht & _).
  now exists pre, t, v, post.
Qed.

End AnswerFacts.

(** ** The primitives on small inputs *)

Module Examples.
Import Py App.

Example splitlines_mixed :
  splitlines (lit "a" ++ ["013"%char; newline] ++ lit "b" ++ [newline; newline]
              ++ lit "c" ++ ["013"%char])
  = [lit "a"; lit "b"; []; lit "c"].
Proof. reflexivity. Qed.

Example splitlines_vt_nel :
  splitlines (lit "x" ++ ["011"%char] ++ lit "y" ++ ["133"%char] ++ lit "z")
  = [lit "x"; lit "y"; lit "z"].
Proof. reflexivity. Qed.

Example splitlines_empty : splitlines [] = [].
Proof. reflexivity. Qed.

Example splitlines_one_break : splitlines [newline] = [[]].
Proof. reflexivity. Qed.

Example strip_both_ends :
  strip ([" "%char; "009"%char] ++ lit " a b " ++ ["160"%char]) = lit "a b".
Proof. reflexivity. Qed.

Example lower_latin :
  lower (["192"%char] ++ lit "B " ++ ["223"%char])
  = ["224"%char] ++ lit "b " ++ ["223"%char].
Proof. reflexivity. Qed.

Example replace_all :
  replace (lit "oktober") (lit "october") (lit "12 oktober oktoberoktober")
  = lit "12 october octoberoctober".
Proof. reflexivity. Qed.

Example replace_no_overlap : replace (lit "aa") (lit "b") (lit "aaa") = lit "ba".
Proof. reflexivity. Qed.

Example find_first : find (lit "ab") (lit "xxabyyab") = 2%Z.
Proof. reflexivity. Qed.

Example find_absent : find (lit "ab") (lit "xx") = (-1)%Z.
Proof. reflexivity. Qed.

Example split_after_first_only :
  split_after (lit "ab") (lit "xxabyyabzz") = Some (lit "yyabzz").
Proof. reflexivity. Qed.

Example isalnum_examples :
  isalnum (lit "abc12") = true /\ isalnum (lit "demo-kb") = false
  /\ isalnum [] = false.
Proof. repeat split. Qed.

(** The repetition before the group gives a character back when the group
    cannot start after it. *)
Example search_gives_back :
  Re.search birthday_re (lit "birthday is  .") = Some [(1, lit " ")].
Proof. reflexivity. Qed.

Example search_across_lines :
  Re.search birthday_re
            (lit "BIRTHDAY" ++ ["009"%char] ++ lit "IS" ++ [newline] ++ lit " x"
             ++ [newline])
  = Some [(1, lit "x")].
Proof. reflexivity. Qed.

Example search_no_value :
  Re.search birthday_re (lit "birthday is " ++ [newline]) = None.
Proof. reflexivity. Qed.

Example search_second_start :
  Re.search birthday_re (lit "birthday is . birthday is 3") = Some [(1, lit "3")].
Proof. reflexivity. Qed.

Example search_stops_at_quote :
  Re.search birthday_re (lit "Birthday  is 12 okt" ++ [dquote] ++ lit " rest")
  = Some [(1, lit "12 okt")].
Proof. reflexivity. Qed.

Example normalize_hello :
  _normalize_store_content (lit "Hello there") = lit "Hello there".
Proof. reflexivity. Qed.

Example normalize_longer_prefix_first :
  _normalize_store_content (lit "remember that tea") = lit "tea".
Proof. reflexivity. Qed.

Example answer_no_entries :
  _answer_from_memory (lit "what is my birthday") [] = None.
Proof. reflexivity. Qed.

Example answer_oktober :
  _answer_from_memory (lit "what is my birthday") [lit "my birthday is 12 oktober"]
  = Some (lit "Your birthday is 12 october.").
Proof. reflexivity. Qed.

End Examples.

(** * The statements of the specification *)

Import Py Re App Agent AsSpecified Samples.
Import TrimFacts ExtractFacts ReFacts AgentFacts AnswerFacts.

(** ** Intent classifier *)

(** C1. For every utterance whose lower-cased text contains a member of
    the keyword set, [determine_action] returns the knowledgebase route at
    once: the world, and with it the log of calls, is left as it was, so
    the model is not invoked. *)
Theorem determine_action_keyword :
  kb_keywords
  = [ lit "remember"; lit "store"; lit "save"; lit "record"; lit "note that";
      lit "what did i tell"; lit "what do you remember"; lit "recall";
      lit "retrieve"; lit "my name is"; lit "i live"; lit "my birthday";
      lit "where do i live"; lit "who am i" ]
  /\ forall query o w,
       (exists k, In k kb_keywords /\ contains k (lower query) = true) ->
       determine_action query o w = (Ok (lit "knowledgebase"), w).
Proof.
  split; [reflexivity|]. intros query o w H.
  apply looks_like_kb_query_iff in H.
  unfold determine_action. now rewrite H.
Qed.

Lemma determine_action_keyword_witness :
  determine_action (lit "remember my name is Alice")
                   (sample_oracle (lit "teacher") []) sample_world
  = (Ok (lit "knowledgebase"), sample_world).
Proof.
  apply (proj2 determine_action_keyword).
  exists (lit "remember"). split; [simpl; auto|reflexivity].
Defined.

(** C7. When no keyword occurs, [determine_action] asks the model once,
    with the routing prompt; an answer that is knowledgebase once
    lower-cased and trimmed gives the knowledgebase route, every other
    answer gives the teacher route. *)
Theorem determine_action_fallback_route (query : str) (o : oracle) (w : world) :
  (forall k, In k kb_keywords -> contains k (lower query) = false) ->
  let l := log w ++ lookup_warnings w in
    log (snd (determine_action query o w)) = l ++ [Called (routing_call query)] /\
    forall out, o l (routing_call query) = Returns out ->
      (strip (lower out) = lit "knowledgebase" ->
       fst (determine_action query o w) = Ok (lit "knowledgebase")) /\
      (strip (lower out) <> lit "knowledgebase" ->
       fst (determine_action query o w) = Ok (lit "teacher")).
Proof.
  intros H.
  assert (Hl : _looks_like_kb_query query = false).
  { destruct (_looks_like_kb_query query) eqn:E; [|reflexivity].
    apply looks_like_kb_query_iff in E as (k & Hin & Hk).
    rewrite (H k Hin) in Hk. discriminate. }
  rewrite (determine_action_fallback query o w Hl).
  cbv zeta. rewrite <- ready_warnings. split.
  - destruct (o (log (ready w)) (routing_call query)); reflexivity.
  - intros out ->. cbv iota. cbn [fst]. unfold route_of. split; intros Hout.
    + now rewrite (proj2 (str_eqb_eq _ _) Hout).
    + destruct (str_eqb (strip (lower out)) (lit "knowledgebase")) eqn:E;
        [|reflexivity].
      now apply str_eqb_eq in E.
Qed.

Lemma determine_action_fallback_route_witness :
  fst (determine_action (lit "what is 2+2")
         (sample_oracle (lit " KnowledgeBase ") []) sample_world)
  = Ok (lit "knowledgebase")
  /\ fst (determine_action (lit "what is 2+2")
            (sample_oracle (lit "knowledgebase, I think") []) sample_world)
     = Ok (lit "teacher").
Proof.
  assert (Hk : forall k, In k kb_keywords ->
                         contains k (lower (lit "what is 2+2")) = false).
  { intros k Hin. simpl in Hin.
    repeat (destruct Hin as [<-|Hin]; [reflexivity|]). destruct Hin. }
  split.
  - destruct (determine_action_fallback_route (lit "what is 2+2")
                (sample_oracle (lit " KnowledgeBase ") []) sample_world Hk)
      as (_ & H).
    apply (H (lit " KnowledgeBase ")); reflexivity.
  - destruct (determine_action_fallback_route (lit "what is 2+2")
                (sample_oracle (lit "knowledgebase, I think") []) sample_world Hk)
      as (_ & H).
    apply (H (lit "knowledgebase, I think")); [reflexivity|].
    vm_compute. discriminate.
Defined.

(** ** Store or retrieve *)

(** C8. With a valid identifier, [run_kb_agent] asks the model once for
    the action.  If the lower-cased, trimmed answer has store anywhere in
    it, the store path is taken: the normalized content is handed to the
    memory service and nothing is retrieved.  Otherwise the retrieve path
    is taken: the query is retrieved once and nothing is stored. *)
Theorem run_kb_agent_store_by_substring (query : str) (o : oracle) (w : world) :
  is_valid_kb_id (kb_id_of w) = true ->
  let l := log w ++ lookup_warnings w in
    forall out, o l (kb_action_call query) = Returns out ->
      ((exists a b, strip (lower out) = a ++ lit "store" ++ b) ->
       log (snd (run_kb_agent query o w))
       = l ++ [Called (kb_action_call query); Called (store_call query)] /\
       forall r, o (l ++ [Called (kb_action_call query)]) (store_call query)
                 = Returns r ->
                 fst (run_kb_agent query o w) = Ok (lit "I've stored this information."))
      /\
      (~ (exists a b, strip (lower out) = a ++ lit "store" ++ b) ->
       exists rest,
         log (snd (run_kb_agent query o w))
         = l ++ [Called (kb_action_call query); Called (retrieve_call query w)]
             ++ rest /\
         stored rest = [] /\ retrievals rest = []).
Proof.
  intros Hv. rewrite (run_kb_agent_valid query o w Hv). cbv zeta.
  rewrite <- ready_warnings.
  intros out ->. split; intros Hs.
  - apply PyFacts.contains_iff in Hs. rewrite Hs. split.
    + destruct (o _ (store_call query)); simpl; now rewrite <- app_assoc.
    + intros r Hr. simpl (log (record _ _)). now rewrite Hr.
  - destruct (contains (lit "store") (strip (lower out))) eqn:E.
    { exfalso. apply Hs. now apply PyFacts.contains_iff. }
    destruct (o _ (retrieve_call query w)) as [result_str|e].
    + destruct (answer_retrieval_log (kb_id_of w) query result_str o
                  (record (Called (retrieve_call query w))
                          (record (Called (kb_action_call query)) (ready w))))
        as (rest & -> & Hst & Hre).
      exists rest. simpl. now rewrite <- !app_assoc.
    + exists []. simpl. now rewrite <- !app_assoc.
Qed.

Lemma run_kb_agent_store_by_substring_witness :
  log (snd (run_kb_agent (lit "Remember that I like tea")
              (sample_oracle (lit " Storeroom ") []) sample_world))
  = [Called (kb_action_call (lit "Remember that I like tea"));
     Called (memory_store (lit "I like tea"))].
Proof.
  apply (run_kb_agent_store_by_substring (lit "Remember that I like tea")
           (sample_oracle (lit " Storeroom ") []) sample_world eq_refl
           (lit " Storeroom ") eq_refl).
  exists [], (lit "room"). reflexivity.
Defined.

(** ** Retrieval outcomes *)

(** C9, as the code has it.  On the retrieve path, a response that
    contains [status': 'error'], or the same pair with double quotes, or
    [No knowledge base ID], is answered with the diagnostic, which holds
    the identifier and the raw response; nothing is asked again.  A
    response without those that contains [No results found] is answered
    with the guidance.  The first test comes first: a response with both
    gets the diagnostic. *)
Theorem run_kb_agent_retrieval_outcome (query : str) (o : oracle) (w : world) :
  is_valid_kb_id (kb_id_of w) = true ->
  let l := log w ++ lookup_warnings w in
    forall out result_str,
      o l (kb_action_call query) = Returns out ->
      contains (lit "store") (strip (lower out)) = false ->
      o (l ++ [Called (kb_action_call query)]) (retrieve_call query w)
      = Returns result_str ->
      (reports_error result_str = true ->
       fst (run_kb_agent query o w) = Ok (failure_message (kb_id_of w) result_str) /\
       log (snd (run_kb_agent query o w))
       = l ++ [Called (kb_action_call query); Called (retrieve_call query w)] /\
       contains (kb_id_of w) (failure_message (kb_id_of w) result_str) = true /\
       contains result_str (failure_message (kb_id_of w) result_str) = true)
      /\
      (reports_error result_str = false ->
       contains (lit "No results found") result_str = true ->
       fst (run_kb_agent query o w) = Ok no_results_message /\
       log (snd (run_kb_agent query o w))
       = l ++ [Called (kb_action_call query); Called (retrieve_call query w)]).
Proof.
  intros Hv. rewrite (run_kb_agent_valid query o w Hv). cbv zeta.
  rewrite <- ready_warnings.
  intros out result_str -> -> Hr. simpl (log (record _ _)). rewrite Hr. split.
  - intros He. rewrite answer_retrieval_error by exact He. cbn [fst snd].
    split; [reflexivity|]. split.
    + unfold record. cbn [log]. now rewrite <- !app_assoc.
    + split; [apply failure_message_has_id|apply failure_message_has_response].
  - intros He Hn. rewrite answer_retrieval_no_results by assumption.
    cbn [fst snd]. split; [reflexivity|].
    unfold record. cbn [log]. now rewrite <- !app_assoc.
Qed.

Lemma run_kb_agent_retrieval_outcome_witness :
  fst (run_kb_agent (lit "where do i live")
         (sample_oracle (lit "retrieve")
                        (lit "{'status': 'error', 'content': 'No results found'}"))
         sample_world)
  = Ok (failure_message (lit "demokb123")
          (lit "{'status': 'error', 'content': 'No results found'}")).
Proof.
  apply (run_kb_agent_retrieval_outcome (lit "where do i live")
           (sample_oracle (lit "retrieve")
              (lit "{'status': 'error', 'content': 'No results found'}"))
           sample_world eq_refl (lit "retrieve")
           (lit "{'status': 'error', 'content': 'No results found'}")
           eq_refl eq_refl eq_refl).
  reflexivity.
Defined.

(** C9, as worded: a response that holds [status: error] would be an
    error.  The code does not take it for one and answers that no fact
    could be extracted. *)
Lemma run_kb_agent_status_error_literal :
  reports_error_as_specified (lit "status: error") = true /\
  reports_error (lit "status: error") = false /\
  fst (run_kb_agent (lit "where do i live")
         (sample_oracle (lit "retrieve") (lit "status: error")) sample_world)
  = Ok (lit "I couldn't extract any relevant stored facts yet. Try storing it explicitly, e.g. 'Remember that my birthday is 12 Oct'.") /\
  fst (run_kb_agent (lit "where do i live")
         (sample_oracle (lit "retrieve") (lit "status: error")) sample_world)
  <> Ok (failure_message (lit "demokb123") (lit "status: error")).
Proof.
  repeat split; try reflexivity. vm_compute. discriminate.
Qed.

(** ** Content normalizer *)

(** C5. The prefixes are tried in the order of the list, against the
    trimmed input without regard to case; the first that matches is cut off
    and what is left is trimmed; when none matches the trimmed input is
    returned. *)
Theorem normalize_store_content_priority (raw : str) :
  prefixes
  = [ lit "remember that "; lit "remember "; lit "save that "; lit "save ";
      lit "store that "; lit "store "; lit "note that "; lit "record that " ]
  /\ (forall before p after head rest,
        prefixes = before ++ p :: after ->
        strip raw = head ++ rest -> lower head = p ->
        (forall p', In p' before -> ~ ci_prefix p' (strip raw)) ->
        _normalize_store_content raw = strip rest)
  /\ ((forall p, In p prefixes -> ~ ci_prefix p (strip raw)) ->
      _normalize_store_content raw = strip raw).
Proof.
  split; [reflexivity|]. unfold _normalize_store_content.
  rewrite NormalizeFacts.or_else_nil. split.
  - intros before p after head rest -> Ht Hp Hb.
    rewrite NormalizeFacts.strip_prefix_first.
    + rewrite Ht. now rewrite (ci_prefix_rest _ _ _ Hp).
    + apply ci_prefix_iff. now exists head, rest.
    + intros p' Hin. now apply NormalizeFacts.not_ci_prefix, Hb.
  - intros H. apply NormalizeFacts.strip_prefix_none.
    intros p Hin. now apply NormalizeFacts.not_ci_prefix, H.
Qed.

Lemma normalize_store_content_priority_witness :
  _normalize_store_content (lit "Remember that my birthday is 12 Oct")
  = lit "my birthday is 12 Oct"
  /\ _normalize_store_content (lit " remember THAT Tea ") = lit "Tea"
  /\ _normalize_store_content (lit "Hello there") = lit "Hello there".
Proof.
  split; [|split].
  - apply (proj1 (proj2 (normalize_store_content_priority
                           (lit "Remember that my birthday is 12 Oct")))
             [] (lit "remember that ") (tl prefixes)
             (lit "Remember that ") (lit "my birthday is 12 Oct"));
      try reflexivity.
    intros p' [].
  - apply (proj1 (proj2 (normalize_store_content_priority
                           (lit " remember THAT Tea ")))
             [] (lit "remember that ") (tl prefixes)
             (lit "remember THAT ") (lit "Tea"));
      try reflexivity.
    intros p' [].
  - apply (proj2 (proj2 (normalize_store_content_priority (lit "Hello there")))).
    intros p Hin Hp. apply ci_prefix_iff in Hp. simpl in Hin.
    repeat (destruct Hin as [<-|Hin]; [discriminate Hp|]). destruct Hin.
Defined.

(** C6. The normalizer returns the empty string only for an input that is
    empty or all white space; and a run of [run_kb_agent] on a query that
    is not empty, like every run of the input handler, which calls it with
    no other, hands no empty content to the memory service for storing:
    when the normalized text is empty the query itself is stored. *)
Theorem stored_content_never_empty :
  (forall raw, _normalize_store_content raw = [] -> blank raw)
  /\ (forall query, _normalize_store_content query = [] ->
        store_call query = memory_store query)
  /\ (forall query o w, query <> [] ->
        exists new, log (snd (run_kb_agent query o w)) = log w ++ new /\
                    Forall (fun content => content <> []) (stored new))
  /\ (forall input o w,
        exists new, log (snd (handle_query input o w)) = log w ++ new /\
                    Forall (fun content => content <> []) (stored new)).
Proof.
  split; [exact NormalizeFacts.normalize_empty_only_if_blank|].
  split; [intros query H; unfold store_call; now rewrite H|].
  split.
  - intros query o w Hq. now apply careful_run_kb_agent.
  - intros input o w. apply careful_handle_query.
Qed.

Lemma stored_content_never_empty_witness :
  blank (lit "  ")
  /\ store_call (lit "  ") = memory_store (lit "  ")
  /\ exists new,
       log (snd (run_kb_agent (lit "  ") (sample_oracle (lit "store") [])
                              sample_world))
       = log sample_world ++ new
       /\ Forall (fun content => content <> []) (stored new).
Proof.
  split; [|split].
  - apply (proj1 stored_content_never_empty). reflexivity.
  - apply (proj1 (proj2 stored_content_never_empty)). reflexivity.
  - apply (proj1 (proj2 (proj2 stored_content_never_empty))). discriminate.
Defined.

(** ** Result parser *)

(** C2, as the code has it.  The entries are those of the lines of the
    text, in the order of the lines and with repetitions: a line without
    the marker, an empty line among them, adds nothing; otherwise the text
    after the first marker is trimmed, and if it holds the key marker, the
    text after the first key, without its leading white space and one
    opening double quote, is cut at the next double quote, escaped or not,
    and added trimmed; if it holds no key marker, or no double quote
    follows, the trimmed text is added when it is not empty. *)
Theorem extract_memory_entries_by_line (raw : str) :
  (exists es, Forall2 entry_of (splitlines raw) es)
  /\ (forall es, Forall2 entry_of (splitlines raw) es ->
                 _extract_memory_entries raw = kept es).
Proof.
  rewrite extract_kept. split.
  - exists (map line_entry (splitlines raw)).
    induction (splitlines raw) as [|l ls IH]; simpl; constructor;
      [apply line_entry_of|exact IH].
  - intros es H. f_equal.
    induction H as [|l e ls es He _ IH]; simpl; [reflexivity|].
    now rewrite (entry_of_unique _ _ He), IH.
Qed.

Lemma extract_memory_entries_by_line_witness :
  _extract_memory_entries two_previews
  = [lit "my birthday is 12 oktober"; lit "plain text fact"].
Proof.
  apply (proj2 (extract_memory_entries_by_line two_previews)
               [Some (lit "my birthday is 12 oktober");
                Some (lit "plain text fact")]).
  change (Forall2 entry_of (splitlines two_previews)
            (map line_entry (splitlines two_previews))).
  induction (splitlines two_previews) as [|l ls IH]; simpl; constructor;
    [apply line_entry_of|exact IH].
Defined.

(** C2, as worded: the value would start after the first double quote,
    run to the next unescaped one and be added as it is.  The code stops
    at an escaped quote, trims the value, and skips a quote only when the
    value starts with it. *)
Lemma extract_memory_entries_escaped_quote :
  (extract_memory_entries_as_specified escaped_preview
   = [lit "say " ++ [backslash; dquote] ++ lit "hi" ++ [backslash; dquote]]
   /\ _extract_memory_entries escaped_preview = [lit "say " ++ [backslash]]
   /\ _extract_memory_entries escaped_preview
      <> extract_memory_entries_as_specified escaped_preview)
  /\ (extract_memory_entries_as_specified padded_preview = [lit " tea "]
      /\ _extract_memory_entries padded_preview = [lit "tea"])
  /\ (extract_memory_entries_as_specified unquoted_preview = [lit "note"]
      /\ _extract_memory_entries unquoted_preview = [lit "null,"]).
Proof. repeat split; try reflexivity. vm_compute. discriminate. Qed.

(** C10. A preview whose quoted content value is empty adds the empty
    string to the entries: the empty string is among the entries of a text
    exactly when one of its lines holds, after the marker and the content
    key, a quoted value that is empty or all white space.  So the entries
    are not all non-empty, even though a preview with nothing but white
    space after the marker is skipped: a text whose lines all lack the
    marker or have only white space after it has no entries. *)
Theorem extract_memory_entries_keeps_empty_value :
  _extract_memory_entries empty_value_preview = [[]]
  /\ (forall raw,
        In [] (_extract_memory_entries raw) <->
        exists line a rest b t v u,
          In line (splitlines raw)
          /\ first_split preview_marker line a rest
          /\ first_split content_key (strip rest) b t
          /\ after_open_quote (lstrip t) = v ++ dquote :: u
          /\ ~ In dquote v /\ blank v)
  /\ (forall raw,
        (forall line, In line (splitlines raw) ->
           contains preview_marker line = false
           \/ exists a rest, first_split preview_marker line a rest
                             /\ blank rest) ->
        _extract_memory_entries raw = []).
Proof.
  split; [reflexivity|]. split.
  - intros raw. rewrite extract_kept, kept_In, in_map_iff. split.
    + intros (line & Hl & Hin). apply line_entry_empty in Hl
        as (a & rest & b & t & v & u & H).
      now exists line, a, rest, b, t, v, u.
    + intros (line & a & rest & b & t & v & u & Hin & H).
      exists line. split; [|exact Hin]. apply line_entry_empty.
      now exists a, rest, b, t, v, u.
  - intros raw H. rewrite extract_kept.
    induction (splitlines raw) as [|line ls IH]; [reflexivity|].
    simpl. rewrite (line_entry_blank line (H line (or_introl eq_refl))).
    apply IH. intros l Hl. apply H. now right.
Qed.

(** Two lines, neither with a fact: white space after the marker, and no
    marker. *)
Lemma extract_memory_entries_keeps_empty_value_witness :
  _extract_memory_entries (lit "id 7 Content Preview:   " ++ [newline]
                           ++ lit "Score: 0.9")
  = []
  /\ In [] (_extract_memory_entries (lit "Score: 0.9" ++ [newline]
                                     ++ empty_value_preview)).
Proof.
  split.
  - apply (proj2 (proj2 extract_memory_entries_keeps_empty_value)).
    intros line Hin. simpl in Hin. destruct Hin as [<-|[<-|[]]].
    + right.
      destruct (proj1 (split_after_first preview_marker
                         (lit "id 7 Content Preview:   ") (lit "   ")) eq_refl)
        as (a & Ha).
      exists a, (lit "   "). split; [exact Ha|reflexivity].
    + left. reflexivity.
  - apply (proj1 (proj2 extract_memory_entries_keeps_empty_value)).
    destruct (proj1 (split_after_first preview_marker empty_value_preview
                       (lit " {" ++ content_key ++ lit " " ++ [dquote; dquote]
                        ++ lit "}")) eq_refl) as (a & Ha).
    destruct (proj1 (split_after_first content_key
                       (lit "{" ++ content_key ++ lit " " ++ [dquote; dquote]
                        ++ lit "}")
                       (lit " " ++ [dquote; dquote] ++ lit "}")) eq_refl)
      as (b & Hb).
    exists empty_value_preview, a,
      (lit " {" ++ content_key ++ lit " " ++ [dquote; dquote] ++ lit "}"),
      b, (lit " " ++ [dquote; dquote] ++ lit "}"), [], (lit "}").
    split; [simpl; tauto|]. split; [exact Ha|]. split; [exact Hb|].
    split; [reflexivity|]. split; [intros []|reflexivity].
Defined.

(** ** Direct answers *)

(** C3, as the code has it.  When the lower-cased query contains birthday
    and the blob of the entries has a match of the birthday pattern,
    [_answer_from_memory] returns the birthday sentence built on the
    captured value of the first match, trimmed, with oktober replaced by
    october; with no entries it returns nothing. *)
Theorem answer_from_memory_birthday :
  (forall query memories,
      contains (lit "birthday") (lower query) = true ->
      occurs [lit "birthday"; lit "is"] (join [newline] memories) ->
      exists v,
        Re.search birthday_re (join [newline] memories) = Some [(1, v)] /\
        captured [lit "birthday"; lit "is"] (join [newline] memories) v /\
        _answer_from_memory query memories
        = Some (lit "Your birthday is "
                ++ replace (lit "oktober") (lit "october") (strip v)
                ++ lit "."))
  /\ (forall query, _answer_from_memory query [] = None).
Proof.
  split.
  - intros query memories Hq Ho. rewrite answer_from_memory_questions. cbv zeta.
    destruct (question_answers _ _ say_birthday _ Hq Ho) as (v & Hs & Hc & ->).
    now exists v.
  - intros query. rewrite answer_from_memory_questions. cbv zeta.
    unfold question.
    destruct (contains (lit "birthday") (lower query));
      destruct (contains (lit "where do i live") (lower query)
                || contains (lit "where i live") (lower query));
      destruct (contains (lit "my name") (lower query)); reflexivity.
Qed.

Lemma answer_from_memory_birthday_witness :
  exists v,
    Re.search birthday_re (join [newline] [lit "my birthday is 12 oktober"])
    = Some [(1, v)] /\
    captured [lit "birthday"; lit "is"]
             (join [newline] [lit "my birthday is 12 oktober"]) v /\
    _answer_from_memory (lit "what is my birthday")
                        [lit "my birthday is 12 oktober"]
    = Some (lit "Your birthday is "
            ++ replace (lit "oktober") (lit "october") (strip v) ++ lit ".").
Proof.
  apply (proj1 answer_from_memory_birthday); [reflexivity|].
  apply (search_occurs _ _ [(1, lit "12 oktober")]). reflexivity.
Defined.

(** C3, as worded: the sentence would hold the captured value itself.
    The code trims it first. *)
Lemma answer_from_memory_birthday_untrimmed :
  contains (lit "birthday") (lower (lit "what is my birthday")) = true /\
  Re.search birthday_re (join [newline] [lit "my birthday is 12 oct ."])
  = Some [(1, lit "12 oct ")] /\
  _answer_from_memory (lit "what is my birthday") [lit "my birthday is 12 oct ."]
  = Some (lit "Your birthday is 12 oct.") /\
  _answer_from_memory (lit "what is my birthday") [lit "my birthday is 12 oct ."]
  <> Some (lit "Your birthday is "
           ++ replace (lit "oktober") (lit "october") (lit "12 oct ")
           ++ lit ".").
Proof. repeat split; try reflexivity. vm_compute. discriminate. Qed.

(** C4, as the code has it.  The question types are tried in the order
    birthday, residence, name.  A type answers when its trigger is in the
    lower-cased query and its pattern occurs in the blob; a type whose
    trigger is there but whose pattern does not occur is passed over and
    the next is tried.  The first type that answers gives the one answer of
    the call; when none answers there is no answer. *)
Theorem answer_from_memory_first_answering (query : str) (memories : list str) :
  let q := lower query in
  let blob := join [newline] memories in
  let birthday :=
    contains (lit "birthday") q = true /\ occurs [lit "birthday"; lit "is"] blob in
  let residence :=
    (contains (lit "where do i live") q = true
     \/ contains (lit "where i live") q = true)
    /\ occurs [lit "i"; lit "live"; lit "in"] blob in
  let name :=
    contains (lit "my name") q = true
    /\ occurs [lit "my"; lit "name"; lit "is"] blob in
  (birthday ->
   exists v, captured [lit "birthday"; lit "is"] blob v /\
     _answer_from_memory query memories
     = Some (lit "Your birthday is "
             ++ replace (lit "oktober") (lit "october") (strip v) ++ lit "."))
  /\ (~ birthday -> residence ->
      exists v, captured [lit "i"; lit "live"; lit "in"] blob v /\
        _answer_from_memory query memories
        = Some (lit "You live in " ++ strip v ++ lit "."))
  /\ (~ birthday -> ~ residence -> name ->
      exists v, captured [lit "my"; lit "name"; lit "is"] blob v /\
        _answer_from_memory query memories
        = Some (lit "Your name is " ++ strip v ++ lit "."))
  /\ (~ birthday -> ~ residence -> ~ name ->
      _answer_from_memory query memories = None).
Proof.
  cbv zeta. rewrite answer_from_memory_questions. cbv zeta.
  set (q := lower query). set (blob := join [newline] memories).
  assert (Hor : forall b1 b2 : bool,
             (b1 = true \/ b2 = true) <-> b1 || b2 = true).
  { intros b1 b2. symmetry. apply orb_true_iff. }
  split; [|split; [|split]].
  - intros [Hq Ho].
    destruct (question_answers _ _ say_birthday _ Hq Ho) as (v & _ & Hc & ->).
    now exists v.
  - intros Hb [Hq Ho]. rewrite (question_silent _ _ say_birthday _ Hb).
    apply Hor in Hq.
    destruct (question_answers _ _ say_residence _ Hq Ho) as (v & _ & Hc & ->).
    now exists v.
  - intros Hb Hr [Hq Ho]. rewrite (question_silent _ _ say_birthday _ Hb).
    rewrite (question_silent _ _ say_residence blob).
    + destruct (question_answers _ _ say_name _ Hq Ho) as (v & _ & Hc & ->).
      now exists v.
    + intros [H1 H2]. apply Hr. split; [now apply Hor|exact H2].
  - intros Hb Hr Hn. rewrite (question_silent _ _ say_birthday _ Hb).
    rewrite (question_silent _ _ say_residence blob).
    + now apply question_silent.
    + intros [H1 H2]. apply Hr. split; [now apply Hor|exact H2].
Qed.

Lemma answer_from_memory_first_answering_witness :
  exists v,
    captured [lit "my"; lit "name"; lit "is"]
             (join [newline] [lit "I like tea"; lit "my name is Bob"]) v /\
    _answer_from_memory (lit "What is my name and birthday?")
                        [lit "I like tea"; lit "my name is Bob"]
    = Some (lit "Your name is " ++ strip v ++ lit ".").
Proof.
  apply (proj1 (proj2 (proj2 (answer_from_memory_first_answering
                                (lit "What is my name and birthday?")
                                [lit "I like tea"; lit "my name is Bob"])))).
  - intros [_ Ho]. revert Ho. apply search_fact_none. reflexivity.
  - intros [[Hq|Hq] _]; discriminate Hq.
  - split; [reflexivity|].
    apply (search_occurs _ _ [(1, lit "Bob")]). reflexivity.
Defined.

(** C4, as worded: once the trigger of a question type is in the query,
    the later types would not be consulted.  The code passes over a type
    whose pattern does not occur. *)
Lemma answer_from_memory_falls_through :
  contains (lit "birthday") (lower (lit "What is my name and birthday?")) = true /\
  answer_from_memory_else_if (lit "What is my name and birthday?")
                             [lit "my name is Bob"] = None /\
  _answer_from_memory (lit "What is my name and birthday?") [lit "my name is Bob"]
  = Some (lit "Your name is Bob.").
Proof. repeat split; reflexivity. Qed.

(** * Further properties of module7/app.py *)

Import Further.

(** ** Effects of the handlers *)

Module EffectFacts.
Import Py App Agent Further AgentFacts.

Section Emits.
Variable Q : event -> Prop.

Lemma emits_same {A} (m : M A) :
  (forall o w, log (snd (m o w)) = log w) -> emits Q m.
Proof.
  intros H o w. exists []. rewrite H, app_nil_r. split; [reflexivity|constructor].
Qed.

Lemma emits_ret {A} (a : A) : emits Q (ret a).
Proof. now apply emits_same. Qed.

Lemma emits_bind {A B} (m : M A) (f : A -> M B) :
  emits Q m -> (forall a, emits Q (f a)) -> emits Q (bind m f).
Proof.
  intros Hm Hf o w. unfold bind. destruct (Hm o w) as (n1 & H1 & Q1).
  destruct (m o w) as [[a|e] w1]; simpl in H1.
  - destruct (Hf a o w1) as (n2 & H2 & Q2). exists (n1 ++ n2).
    rewrite H2, H1, app_assoc. split; [reflexivity|].
    apply Forall_app. now split.
  - now exists n1.
Qed.

Lemma emits_catch {A} (m : M A) (h : str -> M A) :
  emits Q m -> (forall e, emits Q (h e)) -> emits Q (catch m h).
Proof.
  intros Hm Hh o w. unfold catch. destruct (Hm o w) as (n1 & H1 & Q1).
  destruct (m o w) as [[a|e] w1]; simpl in H1.
  - now exists n1.
  - destruct (Hh e o w1) as (n2 & H2 & Q2). exists (n1 ++ n2).
    rewrite H2, H1, app_assoc. split; [reflexivity|].
    apply Forall_app. now split.
Qed.

Lemma emits_emit (e : event) : Q e -> emits Q (emit e).
Proof.
  intros H o w. exists [e]. split; [reflexivity|]. now repeat constructor.
Qed.

Lemma emits_external (c : call) : Q (Called c) -> emits Q (external c).
Proof.
  intros H o w. exists [Called c]. unfold external.
  split; [destruct (o (log w) c); reflexivity|]. now repeat constructor.
Qed.

Lemma emits_get_current_kb_id :
  (forall msg, Q (Warned msg)) -> emits Q get_current_kb_id.
Proof.
  intros H o w. rewrite get_current_kb_id_run. simpl.
  exists (lookup_warnings w). split; [apply looked_up_warnings|].
  unfold lookup_warnings. destruct (truthy (environ_get w)); repeat constructor.
  apply H.
Qed.

Lemma emits_get_kb_agent (kb_id : str) : emits Q (get_kb_agent kb_id).
Proof.
  apply emits_same. intros o w. rewrite get_kb_agent_run. simpl.
  apply with_agent_same.
Qed.

Lemma emits_determine_action (query : str) :
  (forall msg, Q (Warned msg)) -> (forall p s, Q (Called (use_llm p s))) ->
  emits Q (determine_action query).
Proof.
  intros Hw Hl. unfold determine_action. destruct (_looks_like_kb_query query).
  - apply emits_ret.
  - apply emits_bind; [now apply emits_get_current_kb_id|intros kb_id].
    apply emits_bind; [apply emits_get_kb_agent|intros _].
    apply emits_bind; [now apply emits_external|intros result].
    apply emits_ret.
Qed.

Lemma emits_answer_retrieval (kb_id query result_str : str) :
  (forall p s, Q (Called (use_llm p s))) ->
  emits Q (answer_retrieval kb_id query result_str).
Proof.
  intros Hl. unfold answer_retrieval.
  destruct (_ || _ || _); [apply emits_ret|].
  destruct (contains (lit "No results found") result_str); [apply emits_ret|].
  destruct (_answer_from_memory query (_extract_memory_entries result_str)) as [a|].
  - destruct (truthy a); apply emits_ret.
  - destruct (_extract_memory_entries result_str); [apply emits_ret|].
    now apply emits_external.
Qed.

Lemma emits_run_kb_agent (query : str) :
  (forall msg, Q (Warned msg)) -> (forall p s, Q (Called (use_llm p s))) ->
  (forall c, Q (Called (memory_store c))) ->
  (forall q s n, Q (Called (memory_retrieve q s n))) ->
  emits Q (run_kb_agent query).
Proof.
  intros Hw Hl Hs Hr. unfold run_kb_agent.
  apply emits_bind; [now apply emits_get_current_kb_id|intros kb_id].
  destruct (negb (is_valid_kb_id kb_id)); [apply emits_ret|].
  apply emits_bind; [apply emits_get_kb_agent|intros _].
  apply emits_bind; [now apply emits_external|intros result].
  cbv zeta. destruct (contains (lit "store") (strip (lower result))).
  - apply emits_bind; [now apply emits_external|intros; apply emits_ret].
  - apply emits_bind; [now apply emits_same|intros w].
    apply emits_bind; [now apply emits_external|intros r].
    now apply emits_answer_retrieval.
Qed.

End Emits.

Lemma never_raises_ret {A} (a : A) : never_raises (ret a).
Proof. intros o w. now exists a. Qed.

Lemma never_raises_bind {A B} (m : M A) (f : A -> M B) :
  never_raises m -> (forall a, never_raises (f a)) -> never_raises (bind m f).
Proof.
  intros Hm Hf o w. unfold bind. destruct (Hm o w) as (a & Ha).
  destruct (m o w) as [[a'|e] w1]; simpl in Ha; [|discriminate].
  apply Hf.
Qed.

Lemma never_raises_catch {A} (m : M A) (h : str -> M A) :
  (forall e, never_raises (h e)) -> never_raises (catch m h).
Proof.
  intros Hh o w. unfold catch.
  destruct (m o w) as [[a|e] w1]; [now exists a|apply Hh].
Qed.

Lemma never_raises_emit (e : event) : never_raises (emit e).
Proof. intros o w. now exists tt. Qed.

Lemma never_raises_messages_append (role content : str) :
  never_raises (messages_append role content).
Proof. intros o w. now exists tt. Qed.

Lemma keeps_messages_ret {A} (a : A) : keeps_messages (ret a).
Proof. easy. Qed.

Lemma keeps_messages_bind {A B} (m : M A) (f : A -> M B) :
  keeps_messages m -> (forall a, keeps_messages (f a)) ->
  keeps_messages (bind m f).
Proof.
  intros Hm Hf o w. unfold bind. specialize (Hm o w).
  destruct (m o w) as [[a|e] w1]; simpl in Hm; [|exact Hm].
  now rewrite Hf.
Qed.

Lemma keeps_messages_external (c : call) : keeps_messages (external c).
Proof. intros o w. unfold external. now destruct (o (log w) c). Qed.

Lemma keeps_messages_get_current_kb_id : keeps_messages get_current_kb_id.
Proof.
  intros o w. rewrite get_current_kb_id_run. simpl. unfold looked_up.
  now destruct (negb (truthy (environ_get w))).
Qed.

Lemma keeps_messages_get_kb_agent (kb_id : str) :
  keeps_messages (get_kb_agent kb_id).
Proof.
  intros o w. unfold get_kb_agent, bind, get_world, ret, set_environ_kb, cache_add.
  now destruct (existsb (str_eqb kb_id) (agent_cache w)).
Qed.

Lemma keeps_messages_determine_action (query : str) :
  keeps_messages (determine_action query).
Proof.
  unfold determine_action. destruct (_looks_like_kb_query query).
  - apply keeps_messages_ret.
  - apply keeps_messages_bind; [apply keeps_messages_get_current_kb_id|intros kb_id].
    apply keeps_messages_bind; [apply keeps_messages_get_kb_agent|intros _].
    apply keeps_messages_bind; [apply keeps_messages_external|intros result].
    apply keeps_messages_ret.
Qed.

Lemma keeps_messages_answer_retrieval (kb_id query result_str : str) :
  keeps_messages (answer_retrieval kb_id query result_str).
Proof.
  unfold answer_retrieval.
  destruct (_ || _ || _); [apply keeps_messages_ret|].
  destruct (contains (lit "No results found") result_str);
    [apply keeps_messages_ret|].
  destruct (_answer_from_memory query (_extract_memory_entries result_str)) as [a|].
  - destruct (truthy a); apply keeps_messages_ret.
  - destruct (_extract_memory_entries result_str); [apply keeps_messages_ret|].
    apply keeps_messages_external.
Qed.

Lemma keeps_messages_run_kb_agent (query : str) :
  keeps_messages (run_kb_agent query).
Proof.
  unfold run_kb_agent.
  apply keeps_messages_bind; [apply keeps_messages_get_current_kb_id|intros kb_id].
  destruct (negb (is_valid_kb_id kb_id)); [apply keeps_messages_ret|].
  apply keeps_messages_bind; [apply keeps_messages_get_kb_agent|intros _].
  apply keeps_messages_bind; [apply keeps_messages_external|intros result].
  cbv zeta. destruct (contains (lit "store") (strip (lower result))).
  - apply keeps_messages_bind; [apply keeps_messages_external|].
    intros; apply keeps_messages_ret.
  - apply keeps_messages_bind; [easy|intros w].
    apply keeps_messages_bind; [apply keeps_messages_external|intros r].
    apply keeps_messages_answer_retrieval.
Qed.

End EffectFacts.

(** ** The input handler *)

Module HandlerFacts.
Import Py App Agent Further AgentFacts EffectFacts.

Lemma with_message_user (role content : str) (o : oracle) (w : world) :
  (messages_append role content ;;; emit (Shown role content)) o w
  = (Ok tt, with_message role content w).
Proof. reflexivity. Qed.

(** [handle_query] on a query that is not empty: the user's message, the
    reply or the error text, as the assistant's message. *)
Lemma handle_query_respond (query : str) (o : oracle) (w : world) :
  query <> [] ->
  handle_query (Some query) o w =
  match respond query o (with_message (lit "user") query w) with
  | (Ok content, w') => (Ok tt, with_message (lit "assistant") content w')
  | (Exn e, w') => (Ok tt, with_message (lit "assistant") (error_message e) w')
  end.
Proof.
  intros Hq. unfold handle_query.
  destruct query as [|c query]; [easy|]. cbn [truthy].
  unfold respond, bind, catch, messages_append, emit, with_message, record,
    error_message.
  cbn [log messages environ_kb agent_cache kb_min_score kb_max_results].
  destruct (determine_action (c :: query) o _) as [[action|e] w3]; [|reflexivity].
  destruct ((if str_eqb action (lit "teacher")
             then external (teacher_agent (c :: query))
             else run_kb_agent (c :: query)) o w3) as [[content|e] w4];
    reflexivity.
Qed.

Lemma respond_keeps_messages (query : str) : keeps_messages (respond query).
Proof.
  unfold respond.
  apply keeps_messages_bind; [apply keeps_messages_determine_action|intros a].
  destruct (str_eqb a (lit "teacher"));
    [apply keeps_messages_external|apply keeps_messages_run_kb_agent].
Qed.

Lemma respond_log (query : str) : emits (fun _ => True) (respond query).
Proof.
  unfold respond. apply emits_bind; [now apply emits_determine_action|intros a].
  destruct (str_eqb a (lit "teacher"));
    [now apply emits_external|now apply emits_run_kb_agent].
Qed.

(** The events of [handle_query] are the two messages shown and, between
    them, the events of the reply. *)
Lemma handle_query_events (Q : event -> Prop) (query : str) (o : oracle)
      (w : world) (mid : list event) :
  query <> [] ->
  (forall role content, Q (Shown role content)) ->
  log (snd (respond query o (with_message (lit "user") query w)))
  = log (with_message (lit "user") query w) ++ mid ->
  Forall Q mid ->
  exists new,
    log (snd (handle_query (Some query) o w)) = log w ++ new
    /\ Forall Q new /\ (forall e, In e mid -> In e new).
Proof.
  intros Hq Hs Hl Hmid. rewrite handle_query_respond by exact Hq.
  assert (Hall : forall content,
             Forall Q ([Shown (lit "user") query] ++ mid
                       ++ [Shown (lit "assistant") content])).
  { intros content. apply Forall_app. split; [repeat constructor; apply Hs|].
    apply Forall_app. split; [exact Hmid|repeat constructor; apply Hs]. }
  destruct (respond query o (with_message (lit "user") query w))
    as [[content|e] w']; cbn [snd] in Hl; cbn [snd].
  - exists ([Shown (lit "user") query] ++ mid
            ++ [Shown (lit "assistant") content]).
    split; [|split; [apply Hall|]].
    + unfold with_message in *. cbn [log] in *. rewrite Hl.
      now rewrite <- !app_assoc.
    + intros x Hx. apply in_or_app. right. apply in_or_app. now left.
  - exists ([Shown (lit "user") query] ++ mid
            ++ [Shown (lit "assistant") (error_message e)]).
    split; [|split; [apply Hall|]].
    + unfold with_message in *. cbn [log] in *. rewrite Hl.
      now rewrite <- !app_assoc.
    + intros x Hx. apply in_or_app. right. apply in_or_app. now left.
Qed.

End HandlerFacts.

(** ** Statements on the handlers *)

Import EffectFacts HandlerFacts.

Lemma invalid_id_is_set (w : world) :
  is_valid_kb_id (kb_id_of w) = false -> looked_up w = w.
Proof.
  unfold kb_id_of, looked_up, or_else.
  destruct (truthy (environ_get w)); [reflexivity|]. discriminate.
Qed.

(** X1. An identifier shorter than six characters, or with a character
    that is not alphanumeric, is rejected: [run_kb_agent] answers with the
    not-configured message, which holds the identifier, calls neither the
    model nor the memory service, and leaves the world as it was. *)
Theorem run_kb_agent_rejects_invalid_id (query : str) (o : oracle) (w : world) :
  (length (kb_id_of w) < 6
   \/ exists c, In c (kb_id_of w) /\ isalnum_char c = false) ->
  run_kb_agent query o w = (Ok (not_configured_message (kb_id_of w)), w)
  /\ piece (kb_id_of w) (not_configured_message (kb_id_of w)).
Proof.
  intros H.
  assert (Hv : is_valid_kb_id (kb_id_of w) = false).
  { unfold is_valid_kb_id. destruct H as [H|(c & Hin & Hc)].
    - apply Nat.leb_gt in H. rewrite H. apply andb_false_r.
    - apply andb_false_intro1. unfold isalnum.
      destruct (kb_id_of w) as [|x id] eqn:E; [reflexivity|].
      destruct (forallb isalnum_char (x :: id)) eqn:F; [|reflexivity].
      rewrite forallb_forall in F. now rewrite (F c Hin) in Hc. }
  split.
  - rewrite (run_kb_agent_invalid query o w Hv).
    now rewrite (invalid_id_is_set w Hv).
  - unfold not_configured_message.
    exists (lit "Knowledge base is not configured. Provide a valid alphanumeric Knowledge Base ID "
            ++ lit "(no hyphens or special characters, got '"), (lit "').").
    now rewrite <- app_assoc.
Qed.

Lemma run_kb_agent_rejects_invalid_id_witness :
  run_kb_agent (lit "where do i live") (sample_oracle (lit "retrieve") [])
               (World (Some (lit "my-kb-01")) [] None None [] [])
  = (Ok (not_configured_message (lit "my-kb-01")),
     World (Some (lit "my-kb-01")) [] None None [] []).
Proof.
  apply (run_kb_agent_rejects_invalid_id (lit "where do i live")
           (sample_oracle (lit "retrieve") [])
           (World (Some (lit "my-kb-01")) [] None None [] [])).
  right. exists "-"%char. split; [simpl; tauto|reflexivity].
Defined.

(** X2. [handle_query] never raises: whatever the model, the memory
    service and the teacher agent do, it returns; and when the reply
    raises with a text, the assistant's message is the error text built on
    it, shown and kept in the history. *)
Theorem handle_query_never_raises :
  (forall input o w, fst (handle_query input o w) = Ok tt)
  /\ (forall query o w e w',
        query <> [] ->
        respond query o (with_message (lit "user") query w) = (Exn e, w') ->
        snd (handle_query (Some query) o w)
        = with_message (lit "assistant") (lit "An error occurred: " ++ e) w').
Proof.
  split.
  - intros [query|] o w; [|reflexivity].
    destruct query as [|c query]; [reflexivity|].
    rewrite handle_query_respond by easy.
    destruct (respond _ _ _) as [[content|e] w']; reflexivity.
  - intros query o w e w' Hq Hr. rewrite handle_query_respond by exact Hq.
    now rewrite Hr.
Qed.

(** A teacher agent that fails. *)
Lemma handle_query_never_raises_witness :
  snd (handle_query (Some (lit "what is 2+2"))
         (fun _ c => match c with
                     | teacher_agent _ => Raises (lit "throttled")
                     | _ => Returns (lit "teacher")
                     end)
         sample_world)
  = with_message (lit "assistant") (lit "An error occurred: throttled")
      (record (Called (teacher_agent (lit "what is 2+2")))
         (record (Called (routing_call (lit "what is 2+2")))
            (with_message (lit "user") (lit "what is 2+2")
               (World (Some (lit "demokb123")) [lit "demokb123"]
                      (Some (6 # 10)%Q) (Some 5%Z) [] [])))).
Proof.
  apply (proj2 handle_query_never_raises (lit "what is 2+2")); [discriminate|].
  reflexivity.
Defined.

(** X3. [handle_query] does nothing on no input and on the empty input.
    On any other query it adds two messages to the history, the query as
    the user's and one reply as the assistant's, after the messages that
    were there; the log starts with the query shown and ends with the reply
    shown. *)
Theorem handle_query_history :
  (forall o w, handle_query None o w = (Ok tt, w)
               /\ handle_query (Some []) o w = (Ok tt, w))
  /\ (forall query o w,
        query <> [] ->
        exists content mid,
          messages (snd (handle_query (Some query) o w))
          = messages w ++ [(lit "user", query); (lit "assistant", content)]
          /\ log (snd (handle_query (Some query) o w))
             = log w ++ [Shown (lit "user") query] ++ mid
                 ++ [Shown (lit "assistant") content]).
Proof.
  split; [now split|].
  intros query o w Hq. rewrite handle_query_respond by exact Hq.
  pose proof (respond_keeps_messages query o (with_message (lit "user") query w))
    as Hm.
  destruct (respond_log query o (with_message (lit "user") query w))
    as (mid & Hl & _).
  destruct (respond _ _ _) as [[content|e] w']; simpl in Hm, Hl.
  - exists content, mid. simpl. rewrite Hm, Hl, <- !app_assoc. now split.
  - exists (error_message e), mid. simpl. rewrite Hm, Hl, <- !app_assoc.
    now split.
Qed.

Lemma handle_query_history_witness :
  exists content mid,
    messages (snd (handle_query (Some (lit "who am i"))
                     (sample_oracle (lit "retrieve") (lit "No results found"))
                     sample_world))
    = messages sample_world
        ++ [(lit "user", lit "who am i"); (lit "assistant", content)]
    /\ log (snd (handle_query (Some (lit "who am i"))
                   (sample_oracle (lit "retrieve") (lit "No results found"))
                   sample_world))
       = log sample_world ++ [Shown (lit "user") (lit "who am i")] ++ mid
           ++ [Shown (lit "assistant") content].
Proof.
  apply (proj2 handle_query_history). discriminate.
Defined.

Lemma respond_keyword (query : str) (o : oracle) (w : world) :
  _looks_like_kb_query query = true ->
  respond query o w = run_kb_agent query o w.
Proof.
  intros H. unfold respond, bind, determine_action. now rewrite H.
Qed.

Lemma respond_teacher (query out : str) (o : oracle) (w : world) :
  _looks_like_kb_query query = false ->
  o (log (ready w)) (routing_call query) = Returns out ->
  strip (lower out) <> lit "knowledgebase" ->
  respond query o w
  = external (teacher_agent query) o
             (record (Called (routing_call query)) (ready w)).
Proof.
  intros Hl Ho Hout. unfold respond, bind.
  rewrite (determine_action_fallback query o w Hl), Ho.
  unfold route_of.
  destruct (str_eqb (strip (lower out)) (lit "knowledgebase")) eqn:E.
  - now apply str_eqb_eq in E.
  - reflexivity.
Qed.

(** X4. A query with a keyword never reaches the teacher agent: in the
    whole run of [handle_query] no call to it is made. *)
Theorem keyword_query_never_reaches_teacher (query : str) (o : oracle) (w : world) :
  (exists k, In k kb_keywords /\ contains k (lower query) = true) ->
  exists new,
    log (snd (handle_query (Some query) o w)) = log w ++ new
    /\ Forall (fun e => ~ is_teacher_call e) new.
Proof.
  intros H. apply looks_like_kb_query_iff in H.
  assert (Hq : query <> []) by (intros ->; discriminate H).
  assert (HQ : emits (fun e => ~ is_teacher_call e) (run_kb_agent query)).
  { apply emits_run_kb_agent; intros; intros (t & Hx); discriminate Hx. }
  destruct (HQ o (with_message (lit "user") query w)) as (mid & Hl & Hmid).
  rewrite <- (respond_keyword query o _ H) in Hl.
  destruct (handle_query_events (fun e => ~ is_teacher_call e) query o w mid Hq)
    as (new & Hnew & Fnew & _); try assumption.
  - intros role content (q & Hx). discriminate Hx.
  - now exists new.
Qed.

Lemma keyword_query_never_reaches_teacher_witness :
  exists new,
    log (snd (handle_query (Some (lit "please recall my address"))
                (sample_oracle (lit "teacher") []) sample_world))
    = log sample_world ++ new
    /\ Forall (fun e => ~ is_teacher_call e) new.
Proof.
  apply keyword_query_never_reaches_teacher.
  exists (lit "recall"). split; [simpl; tauto|reflexivity].
Defined.

(** X5. On the teacher route the memory service is left alone: when the
    query has no keyword and the model answers the routing prompt with
    anything but knowledgebase, [handle_query] calls the teacher agent with
    the query and makes no call to store or retrieve. *)
Theorem teacher_route_leaves_memory_alone
        (query out : str) (o : oracle) (w : world) :
  query <> [] ->
  (forall k, In k kb_keywords -> contains k (lower query) = false) ->
  (forall l, o l (routing_call query) = Returns out) ->
  strip (lower out) <> lit "knowledgebase" ->
  exists new,
    log (snd (handle_query (Some query) o w)) = log w ++ new
    /\ In (Called (teacher_agent query)) new
    /\ Forall (fun e => ~ is_memory_call e) new.
Proof.
  intros Hq Hk Ho Hout.
  assert (Hl : _looks_like_kb_query query = false).
  { destruct (_looks_like_kb_query query) eqn:E; [|reflexivity].
    apply looks_like_kb_query_iff in E as (k & Hin & Hc).
    rewrite (Hk k Hin) in Hc. discriminate. }
  set (w1 := with_message (lit "user") query w).
  assert (Hc : forall p s, ~ is_memory_call (Called (use_llm p s)))
    by (intros p s [(c & H)|(q & s' & n & H)]; discriminate H).
  assert (Ht : ~ is_memory_call (Called (teacher_agent query)))
    by (intros [(c & H)|(q & s' & n & H)]; discriminate H).
  assert (Hw : forall msg, ~ is_memory_call (Warned msg))
    by (intros msg [(c & H)|(q & s' & n & H)]; discriminate H).
  assert (Hs : forall role content, ~ is_memory_call (Shown role content))
    by (intros role content [(c & H)|(q & s' & n & H)]; discriminate H).
  destruct (handle_query_events (fun e => ~ is_memory_call e) query o w
              (lookup_warnings w1
               ++ [Called (routing_call query); Called (teacher_agent query)])
              Hq Hs)
    as (new & Hnew & Fnew & Hin).
  - fold w1. rewrite (respond_teacher query out o w1 Hl (Ho _) Hout).
    unfold external.
    destruct (o _ (teacher_agent query)); cbn [snd]; unfold record; cbn [log];
      rewrite ready_warnings, <- !app_assoc; reflexivity.
  - apply Forall_app. split.
    + unfold lookup_warnings. destruct (truthy (environ_get w1));
        repeat constructor. apply Hw.
    + repeat constructor; [apply Hc|apply Ht].
  - exists new. repeat split; try assumption.
    apply Hin. apply in_or_app. right. simpl. tauto.
Qed.

Lemma teacher_route_leaves_memory_alone_witness :
  exists new,
    log (snd (handle_query (Some (lit "what is 2+2"))
                (sample_oracle (lit "teacher") []) sample_world))
    = log sample_world ++ new
    /\ In (Called (teacher_agent (lit "what is 2+2"))) new
    /\ Forall (fun e => ~ is_memory_call e) new.
Proof.
  apply (teacher_route_leaves_memory_alone (lit "what is 2+2") (lit "teacher")).
  - discriminate.
  - intros k Hin. simpl in Hin.
    repeat (destruct Hin as [<-|Hin]; [reflexivity|]). destruct Hin.
  - reflexivity.
  - vm_compute. discriminate.
Defined.

(** X6. [determine_action] has two routes only: a result it returns is
    knowledgebase or teacher, so the else branch of the handler is the
    knowledgebase route. *)
Theorem determine_action_two_routes (query : str) (o : oracle) (w : world)
        (route : str) :
  fst (determine_action query o w) = Ok route ->
  route = lit "knowledgebase" \/ route = lit "teacher".
Proof.
  destruct (_looks_like_kb_query query) eqn:E.
  - unfold determine_action. rewrite E. simpl. intros [= <-]. now left.
  - rewrite (determine_action_fallback query o w E).
    destruct (o _ (routing_call query)) as [out|e]; simpl; [|discriminate].
    intros [= <-]. unfold route_of.
    destruct (str_eqb (strip (lower out)) (lit "knowledgebase")); auto.
Qed.

Lemma determine_action_two_routes_witness :
  lit "teacher" = lit "knowledgebase" \/ lit "teacher" = lit "teacher".
Proof.
  apply (determine_action_two_routes (lit "what is 2+2")
           (sample_oracle (lit "maybe") []) sample_world).
  reflexivity.
Defined.

(** ** Statements on the retrieve path *)

Lemma run_kb_agent_retrieved (query out result_str : str) (o : oracle) (w : world) :
  is_valid_kb_id (kb_id_of w) = true ->
  o (log w ++ lookup_warnings w) (kb_action_call query) = Returns out ->
  contains (lit "store") (strip (lower out)) = false ->
  o ((log w ++ lookup_warnings w) ++ [Called (kb_action_call query)])
    (retrieve_call query w) = Returns result_str ->
  exists w1,
    log w1 = (log w ++ lookup_warnings w)
             ++ [Called (kb_action_call query); Called (retrieve_call query w)]
    /\ run_kb_agent query o w
       = answer_retrieval (kb_id_of w) query result_str o w1.
Proof.
  intros Hv Ho Hs Hr. rewrite (run_kb_agent_valid query o w Hv). cbv zeta.
  rewrite <- ready_warnings in Ho, Hr. rewrite Ho, Hs.
  simpl (log (record _ _)). rewrite Hr. eexists. split; [|reflexivity].
  simpl. now rewrite ready_warnings, <- !app_assoc.
Qed.

Lemma answer_is_not_empty (query : str) (memories : list str) (answer : str) :
  _answer_from_memory query memories = Some answer -> truthy answer = true.
Proof.
  rewrite answer_from_memory_questions. cbv zeta. unfold question.
  repeat match goal with
         | |- context [if ?b then _ else _] => destruct b
         | |- context [match Re.search ?r ?s with _ => _ end] =>
             destruct (Re.search r s)
         end; try discriminate; intros [= <-]; reflexivity.
Qed.

Lemma join_piece (sep e : str) (l : list str) :
  In e l -> piece e (join sep l).
Proof.
  induction l as [|x l IH]; [easy|]. intros [->|Hin].
  - destruct l as [|y l]; simpl.
    + exists [], []. now rewrite app_nil_r.
    + now exists [], (sep ++ join sep (y :: l)).
  - destruct (IH Hin) as (a & b & Hj). destruct l as [|y l]; [easy|].
    exists (x ++ sep ++ a), b. change (join sep (x :: y :: l))
      with (x ++ sep ++ join sep (y :: l)).
    rewrite Hj. now rewrite <- !app_assoc.
Qed.

(** X7. On the retrieve path, when the response is no error and no empty
    result and a question type answers from the extracted entries,
    [run_kb_agent] returns that answer as it is and asks the model nothing
    more: the calls of the run are the action prompt and the retrieval. *)
Theorem run_kb_agent_direct_answer
        (query out result_str answer : str) (o : oracle) (w : world) :
  is_valid_kb_id (kb_id_of w) = true ->
  o (log w ++ lookup_warnings w) (kb_action_call query) = Returns out ->
  contains (lit "store") (strip (lower out)) = false ->
  o ((log w ++ lookup_warnings w) ++ [Called (kb_action_call query)])
    (retrieve_call query w) = Returns result_str ->
  reports_error result_str = false ->
  contains (lit "No results found") result_str = false ->
  _answer_from_memory query (_extract_memory_entries result_str) = Some answer ->
  fst (run_kb_agent query o w) = Ok answer
  /\ log (snd (run_kb_agent query o w))
     = (log w ++ lookup_warnings w)
       ++ [Called (kb_action_call query); Called (retrieve_call query w)].
Proof.
  intros Hv Ho Hs Hr He Hn Ha.
  destruct (run_kb_agent_retrieved query out result_str o w Hv Ho Hs Hr)
    as (w1 & Hl & ->).
  unfold answer_retrieval. fold (reports_error result_str).
  rewrite He, Hn, Ha, (answer_is_not_empty _ _ _ Ha). now split.
Qed.

Lemma run_kb_agent_direct_answer_witness :
  fst (run_kb_agent (lit "what is my name")
         (sample_oracle (lit "retrieve") (quoted_preview (lit "my name is Bob")))
         sample_world)
  = Ok (lit "Your name is Bob.").
Proof.
  apply (run_kb_agent_direct_answer (lit "what is my name") (lit "retrieve")
           (quoted_preview (lit "my name is Bob")) (lit "Your name is Bob.")
           (sample_oracle (lit "retrieve") (quoted_preview (lit "my name is Bob")))
           sample_world); reflexivity.
Defined.

(** X8. On the retrieve path, when the response is no error and no empty
    result and no question type answers: with no extracted entry
    [run_kb_agent] returns the guidance and asks the model nothing; with
    entries it asks the model once more, with a prompt that holds the query
    and every entry, and returns the model's reply as it is. *)
Theorem run_kb_agent_summary
        (query out result_str : str) (o : oracle) (w : world) :
  is_valid_kb_id (kb_id_of w) = true ->
  o (log w ++ lookup_warnings w) (kb_action_call query) = Returns out ->
  contains (lit "store") (strip (lower out)) = false ->
  o ((log w ++ lookup_warnings w) ++ [Called (kb_action_call query)])
    (retrieve_call query w) = Returns result_str ->
  reports_error result_str = false ->
  contains (lit "No results found") result_str = false ->
  _answer_from_memory query (_extract_memory_entries result_str) = None ->
  let l := (log w ++ lookup_warnings w)
           ++ [Called (kb_action_call query); Called (retrieve_call query w)] in
  let memories := _extract_memory_entries result_str in
  (memories = [] ->
   fst (run_kb_agent query o w) = Ok no_facts_message
   /\ log (snd (run_kb_agent query o w)) = l)
  /\ (memories <> [] ->
      log (snd (run_kb_agent query o w))
      = l ++ [Called (summary_call query memories)]
      /\ (forall reply, o l (summary_call query memories) = Returns reply ->
                        fst (run_kb_agent query o w) = Ok reply)
      /\ piece query (summary_prompt query memories)
      /\ (forall e, In e memories -> piece e (summary_prompt query memories))).
Proof.
  intros Hv Ho Hs Hr He Hn Ha. cbv zeta.
  destruct (run_kb_agent_retrieved query out result_str o w Hv Ho Hs Hr)
    as (w1 & Hl & ->).
  unfold answer_retrieval. fold (reports_error result_str).
  rewrite He, Hn, Ha. split.
  - intros ->. now split.
  - intros Hm. destruct (_extract_memory_entries result_str) as [|m ms] eqn:Em;
      [easy|].
    change (external (use_llm _ ANSWER_SYSTEM_PROMPT))
      with (external (summary_call query (m :: ms))).
    unfold external. rewrite Hl. split; [|split; [|split]].
    + destruct (o _ (summary_call query (m :: ms))); cbn [snd]; unfold record;
        cbn [log]; now rewrite Hl.
    + intros reply ->. reflexivity.
    + unfold summary_prompt.
      exists (lit "User question: " ++ [newline]),
        ([newline; newline]
         ++ lit "Relevant stored facts: " ++ [newline] ++ lit "- "
         ++ join ([newline] ++ lit "- ") (m :: ms)
         ++ [newline; newline]
         ++ lit "Answer succinctly based only on these facts. If unknown, say you don't have that info.").
      now rewrite <- !app_assoc.
    + intros e Hin.
      destruct (join_piece ([newline] ++ lit "- ") e (m :: ms) Hin)
        as (a & b & Hj).
      unfold summary_prompt. rewrite Hj.
      exists (lit "User question: " ++ [newline] ++ query
              ++ [newline; newline]
              ++ lit "Relevant stored facts: " ++ [newline] ++ lit "- " ++ a),
        (b ++ [newline; newline]
         ++ lit "Answer succinctly based only on these facts. If unknown, say you don't have that info.").
      now rewrite <- !app_assoc.
Qed.

Lemma run_kb_agent_summary_witness :
  fst (run_kb_agent (lit "what do you remember about tea")
         (fun _ c => match c with
                     | use_llm _ s =>
                         if str_eqb s KB_ACTION_SYSTEM_PROMPT
                         then Returns (lit "retrieve")
                         else Returns (lit "You like tea.")
                     | _ => Returns (plain_preview (lit "I like tea"))
                     end)
         sample_world)
  = Ok (lit "You like tea.").
Proof.
  apply (proj2 (run_kb_agent_summary (lit "what do you remember about tea")
                  (lit "retrieve") (plain_preview (lit "I like tea")) _
                  sample_world eq_refl eq_refl eq_refl eq_refl eq_refl eq_refl
                  eq_refl)).
  - discriminate.
  - reflexivity.
Defined.

(** ** Pieces and lines *)

Module PieceFacts.
Import Py App Further TrimFacts ExtractFacts.

Lemma piece_refl (s : str) : piece s s.
Proof. exists [], []. now rewrite app_nil_r. Qed.

Lemma piece_trans (a b c : str) : piece a b -> piece b c -> piece a c.
Proof.
  intros (x & y & ->) (x' & y' & ->). exists (x' ++ x), (y ++ y').
  now rewrite <- !app_assoc.
Qed.

Lemma piece_prefix (a b : str) : piece a (a ++ b).
Proof. now exists [], b. Qed.

Lemma piece_suffix (a b : str) : piece b (a ++ b).
Proof. exists a, []. now rewrite app_nil_r. Qed.

Lemma piece_contains (k s : str) : contains k s = true <-> piece k s.
Proof. apply PyFacts.contains_iff. Qed.

Lemma piece_lower (a b : str) : piece a b -> piece (lower a) (lower b).
Proof. intros (x & y & ->). exists (lower x), (lower y). now rewrite !lower_app. Qed.

Lemma piece_strip (s : str) : piece (strip s) s.
Proof. destruct (strip_split s) as (a & b & H & _). now exists a, b. Qed.

Lemma piece_lstrip (s : str) : piece (lstrip s) s.
Proof.
  destruct (lstrip_split s) as (ws & H & _). rewrite H at 2. apply piece_suffix.
Qed.

Lemma piece_skipn (n : nat) (s : str) : piece (skipn n s) s.
Proof. rewrite <- (firstn_skipn n s) at 2. apply piece_suffix. Qed.

Lemma piece_firstn (n : nat) (s : str) : piece (firstn n s) s.
Proof. rewrite <- (firstn_skipn n s) at 2. apply piece_prefix. Qed.

Lemma piece_split_after (sep s rest : str) :
  split_after sep s = Some rest -> piece rest s.
Proof.
  unfold split_after. destruct (index_of sep s); [|discriminate].
  intros [= <-]. apply piece_skipn.
Qed.

Lemma piece_Forall (P : ascii -> Prop) (a b : str) :
  piece a b -> Forall P b -> Forall P a.
Proof.
  intros (x & y & ->) H. apply Forall_app in H as [_ H].
  now apply Forall_app in H as [H _].
Qed.

Lemma piece_quoted_content (snippet e : str) :
  quoted_content snippet = Some e -> piece e snippet.
Proof.
  unfold quoted_content. destruct (contains content_key snippet); [|discriminate].
  destruct (split_after content_key snippet) as [rest|] eqn:Er; [|discriminate].
  rewrite code_after_open_quote.
  destruct (find [dquote] (after_open_quote (lstrip rest)) >? -1)%Z;
    [|discriminate].
  intros [= <-]. eapply piece_trans; [apply piece_strip|].
  eapply piece_trans; [apply piece_firstn|].
  eapply piece_trans; [|apply (piece_split_after _ _ _ Er)].
  eapply piece_trans; [|apply piece_lstrip].
  unfold after_open_quote. destruct (lstrip rest) as [|c r]; [apply piece_refl|].
  destruct (Ascii.eqb c dquote); [apply (piece_suffix [c])|apply piece_refl].
Qed.

Lemma quoted_content_trimmed (snippet e : str) :
  quoted_content snippet = Some e -> trimmed e.
Proof.
  unfold quoted_content. destruct (contains content_key snippet); [|discriminate].
  destruct (split_after content_key snippet) as [rest|]; [|discriminate].
  destruct (find [dquote] _ >? -1)%Z; [|discriminate].
  intros [= <-]. apply strip_trimmed.
Qed.

(** An entry is a trimmed piece of its line, which holds the marker. *)
Lemma line_entry_piece (line e : str) :
  line_entry line = Some e ->
  contains preview_marker line = true /\ piece e line /\ trimmed e.
Proof.
  unfold line_entry. destruct (contains preview_marker line); [|discriminate].
  destruct (split_after preview_marker line) as [rest|] eqn:Er; [|discriminate].
  cbv zeta. destruct (quoted_content (strip rest)) as [q|] eqn:Eq.
  - intros [= <-]. split; [reflexivity|]. split.
    + eapply piece_trans; [apply (piece_quoted_content _ _ Eq)|].
      eapply piece_trans; [apply piece_strip|apply (piece_split_after _ _ _ Er)].
    + apply (quoted_content_trimmed _ _ Eq).
  - destruct (truthy (strip rest)); [|discriminate].
    intros [= <-]. split; [reflexivity|]. split.
    + eapply piece_trans; [apply piece_strip|apply (piece_split_after _ _ _ Er)].
    + apply strip_trimmed.
Qed.

Lemma cr_is_linebreak (c : ascii) : is_cr c = true -> islinebreak c = true.
Proof.
  unfold is_cr, islinebreak, between. intros H. apply N.eqb_eq in H.
  now rewrite H.
Qed.

(** The lines of [splitlines] hold no line boundary. *)
Lemma splitlines_from_one_line (n : nat) :
  forall s cur, length s <= n -> one_line cur ->
                Forall one_line (splitlines_from cur s).
Proof.
  induction n as [|n IH]; intros s cur Hn Hcur.
  - destruct s; [|simpl in Hn; lia]. simpl. destruct cur; repeat constructor.
    apply Forall_rev. exact Hcur.
  - destruct s as [|c s]; simpl.
    + destruct cur; repeat constructor. apply Forall_rev. exact Hcur.
    + simpl in Hn. assert (Hrev : one_line (rev cur)) by now apply Forall_rev.
      destruct (is_cr c) eqn:Ecr.
      * destruct s as [|d s].
        -- constructor; [exact Hrev|]. simpl. constructor.
        -- simpl in Hn. destruct (is_lf d); (constructor; [exact Hrev|]);
             apply IH; try constructor; simpl; lia.
      * destruct (islinebreak c) eqn:Elb.
        -- constructor; [exact Hrev|]. apply IH; [lia|constructor].
        -- apply IH; [lia|]. now constructor.
Qed.

Lemma splitlines_one_line (s : str) : Forall one_line (splitlines s).
Proof. apply (splitlines_from_one_line (length s)); [lia|constructor]. Qed.

(** Reading a text with no line boundary only fills the current line. *)
Lemma splitlines_from_app (l s cur : str) :
  one_line l -> splitlines_from cur (l ++ s) = splitlines_from (rev l ++ cur) s.
Proof.
  intros Hl. revert cur. induction Hl as [|c l Hc Hl IH]; intros cur;
    [reflexivity|].
  simpl. destruct (is_cr c) eqn:Ecr.
  - apply cr_is_linebreak in Ecr. congruence.
  - rewrite Hc, IH, <- app_assoc. reflexivity.
Qed.

Lemma splitlines_from_newline (s cur : str) :
  splitlines_from cur (newline :: s) = rev cur :: splitlines_from [] s.
Proof. reflexivity. Qed.

(** Lines that are not empty and hold no line boundary, joined with
    newlines, split back into themselves. *)
Lemma splitlines_join (ls : list str) :
  Forall (fun l => l <> [] /\ one_line l) ls ->
  splitlines (join [newline] ls) = ls.
Proof.
  unfold splitlines. induction 1 as [|l ls [Hne Hl] Hls IH]; [reflexivity|].
  destruct ls as [|l2 ls].
  - simpl. rewrite <- (app_nil_r l) at 1. rewrite splitlines_from_app by exact Hl.
    rewrite app_nil_r. simpl. destruct (rev l) eqn:E.
    + apply (f_equal (@rev ascii)) in E. rewrite rev_involutive in E. easy.
    + now rewrite <- E, rev_involutive.
  - change (join [newline] (l :: l2 :: ls))
      with (l ++ newline :: join [newline] (l2 :: ls)).
    rewrite splitlines_from_app by exact Hl. rewrite splitlines_from_newline.
    rewrite app_nil_r, rev_involutive. now rewrite IH.
Qed.

(** A text between two characters that are not white space is trimmed. *)
Lemma trimmed_ends (c d : ascii) (mid : str) :
  isspace c = false -> isspace d = false -> trimmed (c :: mid ++ [d]).
Proof.
  intros Hc Hd. split.
  - intros x r H. injection H as <- _. exact Hc.
  - intros r x H. change (c :: mid ++ [d]) with ((c :: mid) ++ [d]) in H.
    apply app_inj_tail in H as [_ <-]. exact Hd.
Qed.

End PieceFacts.

(** ** Statements on the normalizer and the keyword test *)

Import PieceFacts.

Lemma strip_prefix_cases (ps : list str) (lowered text : str) :
  strip_prefix ps lowered text = text
  \/ exists p, In p ps /\ startswith p lowered = true
               /\ strip_prefix ps lowered text
                  = strip (slice_from (length p) text).
Proof.
  induction ps as [|p ps IH]; simpl; [now left|].
  destruct (startswith p lowered) eqn:E.
  - right. exists p. auto.
  - destruct IH as [IH|(q & Hin & Hq & IH)]; [now left|].
    right. exists q. auto.
Qed.

(** X9. What the normalizer returns is a piece of the input as it was
    typed, case kept: the input is some text, then the result, then white
    space only; and the result has no white space at either end. *)
Theorem normalize_store_content_piece (raw : str) :
  trimmed (_normalize_store_content raw)
  /\ exists a b, raw = a ++ _normalize_store_content raw ++ b /\ blank b.
Proof.
  unfold _normalize_store_content. rewrite NormalizeFacts.or_else_nil.
  destruct (strip_split raw) as (a0 & b0 & Hraw & _ & Hb0).
  destruct (strip_prefix_cases prefixes (lower (strip raw)) (strip raw))
    as [->|(p & _ & _ & ->)].
  - split; [apply strip_trimmed|]. now exists a0, b0.
  - split; [apply strip_trimmed|]. unfold slice_from.
    set (rest := skipn (length p) (strip raw)).
    destruct (strip_split rest) as (a1 & b1 & Hrest & _ & Hb1).
    exists (a0 ++ firstn (length p) (strip raw) ++ a1), (b1 ++ b0). split.
    + rewrite Hraw at 1. rewrite <- (firstn_skipn (length p) (strip raw)) at 1.
      fold rest. rewrite Hrest at 1. now rewrite <- !app_assoc.
    + apply blank_app. now split.
Qed.

Lemma prefix_holds_keyword (p : str) :
  In p prefixes -> exists k, In k kb_keywords /\ contains k p = true.
Proof.
  intros Hin. simpl in Hin.
  repeat (destruct Hin as [<-|Hin];
          [ first [ exists (lit "remember"); split; [simpl; tauto|reflexivity]
                  | exists (lit "save"); split; [simpl; tauto|reflexivity]
                  | exists (lit "store"); split; [simpl; tauto|reflexivity]
                  | exists (lit "note that"); split; [simpl; tauto|reflexivity]
                  | exists (lit "record"); split; [simpl; tauto|reflexivity] ]
          | ]).
  destruct Hin.
Qed.

(** X10. Whenever the normalizer cuts a prefix off a text, the keyword
    test alone routes that text to the knowledge base: [determine_action]
    returns knowledgebase without asking the model. *)
Theorem cut_prefix_means_keyword_route (raw : str) (o : oracle) (w : world) :
  _normalize_store_content raw <> strip raw ->
  determine_action raw o w = (Ok (lit "knowledgebase"), w).
Proof.
  intros H.
  assert (Hk : exists k, In k kb_keywords /\ contains k (lower raw) = true);
    [|apply looks_like_kb_query_iff in Hk; unfold determine_action;
      now rewrite Hk].
  unfold _normalize_store_content in H. rewrite NormalizeFacts.or_else_nil in H.
  destruct (strip_prefix_cases prefixes (lower (strip raw)) (strip raw))
    as [E|(p & Hin & Hp & _)]; [congruence|].
  destruct (prefix_holds_keyword p Hin) as (k & Hk & Hc).
  exists k. split; [exact Hk|]. apply piece_contains.
  apply piece_contains in Hc. apply PyFacts.startswith_inv in Hp as (r & Hr).
  eapply piece_trans; [exact Hc|].
  eapply piece_trans; [|apply piece_lower, piece_strip].
  rewrite Hr. apply piece_prefix.
Qed.

Lemma cut_prefix_means_keyword_route_witness :
  determine_action (lit " Note that I like tea")
                   (sample_oracle (lit "teacher") []) sample_world
  = (Ok (lit "knowledgebase"), sample_world).
Proof.
  apply cut_prefix_means_keyword_route. vm_compute. discriminate.
Defined.

(** X11. The keyword test looks at the lower-cased text for pieces only:
    a query whose lower-cased text holds the lower-cased text of a query
    that passes the test passes it too, so neither a change of case nor
    text added before or after turns a knowledge-base query away. *)
Theorem looks_like_kb_query_monotone (query query' : str) :
  piece (lower query) (lower query') ->
  _looks_like_kb_query query = true -> _looks_like_kb_query query' = true.
Proof.
  intros Hp H. apply looks_like_kb_query_iff in H as (k & Hin & Hk).
  apply looks_like_kb_query_iff. exists k. split; [exact Hin|].
  apply piece_contains. apply piece_contains in Hk.
  now apply (piece_trans _ _ _ Hk).
Qed.

Lemma looks_like_kb_query_monotone_witness :
  _looks_like_kb_query (lit "Hi! Please RECALL my address, thanks") = true.
Proof.
  apply (looks_like_kb_query_monotone (lit "recall my address")).
  - exists (lit "hi! please "), (lit ", thanks"). reflexivity.
  - reflexivity.
Defined.

(** ** Statements on the result parser *)

Lemma kept_length (es : list (option str)) : length (kept es) <= length es.
Proof.
  induction es as [|[x|] es IH]; simpl; lia.
Qed.

(** X12. Every entry of [_extract_memory_entries] is a piece of one line
    of the text that holds the marker; it has no white space at either end
    and no line boundary inside; and there are no more entries than
    lines. *)
Theorem extract_memory_entries_pieces (raw : str) :
  Forall (fun e => trimmed e /\ one_line e /\
                   exists line, In line (splitlines raw) /\
                                contains preview_marker line = true /\
                                piece e line)
         (_extract_memory_entries raw)
  /\ length (_extract_memory_entries raw) <= length (splitlines raw).
Proof.
  rewrite extract_kept. split.
  - apply Forall_forall. intros e He. apply kept_In in He.
    apply in_map_iff in He as (line & Hl & Hin).
    destruct (line_entry_piece line e Hl) as (Hm & Hp & Ht).
    split; [exact Ht|]. split.
    + apply (piece_Forall _ e line Hp).
      pose proof (splitlines_one_line raw) as H.
      rewrite Forall_forall in H. now apply H.
    + now exists line.
  - etransitivity; [apply kept_length|]. now rewrite length_map.
Qed.

Lemma strip_space_fact (fact : str) :
  trimmed fact -> strip (lit " " ++ fact) = fact.
Proof. intros H. change (strip (lit " " ++ fact)) with (strip fact).
  now apply strip_fixed. Qed.

Lemma plain_preview_entry (fact : str) :
  fact <> [] -> trimmed fact -> contains content_key fact = false ->
  line_entry (plain_preview fact) = Some fact.
Proof.
  intros Hne Ht Hk. rewrite <- (strip_space_fact fact Ht) at 2.
  apply entry_of_unique. apply (e_plain _ [] (lit " " ++ fact)).
  - split; [reflexivity|]. intros; simpl; lia.
  - apply qv_no_key. now rewrite strip_space_fact.
  - now rewrite strip_space_fact.
Qed.

Lemma marker_is_one_line : one_line preview_marker.
Proof. repeat constructor. Qed.

Lemma key_is_one_line : one_line content_key.
Proof. repeat constructor. Qed.

(** X13. Round trip for plain previews: facts that are not empty, have no
    white space at either end, no line boundary and no content key, written
    one per line after the marker, are extracted as they were, in order. *)
Theorem extract_plain_previews (facts : list str) :
  Forall (fun f => f <> [] /\ trimmed f /\ one_line f
                   /\ contains content_key f = false) facts ->
  _extract_memory_entries (join [newline] (map plain_preview facts)) = facts.
Proof.
  intros H. rewrite extract_kept, splitlines_join.
  - induction H as [|f fs (Hne & Ht & _ & Hk) _ IH]; [reflexivity|].
    simpl. rewrite (plain_preview_entry f Hne Ht Hk). simpl. now rewrite IH.
  - apply Forall_map. apply (Forall_impl _ (P := fun f => f <> [] /\ trimmed f
        /\ one_line f /\ contains content_key f = false)); [|exact H].
    intros f (_ & _ & Hl & _). split; [discriminate|].
    unfold plain_preview. apply Forall_app. split; [apply marker_is_one_line|].
    apply Forall_app. split; [repeat constructor|exact Hl].
Qed.

Lemma extract_plain_previews_witness :
  _extract_memory_entries
    (join [newline] (map plain_preview [lit "I like tea"; lit "I live in Oslo"]))
  = [lit "I like tea"; lit "I live in Oslo"].
Proof.
  apply extract_plain_previews.
  constructor; [|constructor; [|constructor]].
  - split; [discriminate|]. split.
    + apply (trimmed_ends "I" "a" (lit " like te")); reflexivity.
    + split; [repeat constructor|reflexivity].
  - split; [discriminate|]. split.
    + apply (trimmed_ends "I" "o" (lit " live in Osl")); reflexivity.
    + split; [repeat constructor|reflexivity].
Defined.

Lemma quoted_snippet_trimmed (fact : str) :
  trimmed (lit "{" ++ content_key ++ lit " " ++ [dquote] ++ fact ++ [dquote]
           ++ lit "}").
Proof.
  split.
  - intros c r H. injection H as <- _. reflexivity.
  - intros r c H.
    change (lit "{" ++ content_key ++ lit " " ++ [dquote] ++ fact ++ [dquote]
            ++ lit "}")
      with ((lit "{" ++ content_key ++ lit " " ++ [dquote]) ++ fact
            ++ [dquote] ++ ["}"%char]) in H.
    rewrite !app_assoc in H. apply app_inj_tail in H as [_ <-]. reflexivity.
Qed.

Lemma quoted_preview_entry (fact : str) :
  trimmed fact -> ~ In dquote fact ->
  line_entry (quoted_preview fact) = Some fact.
Proof.
  intros Ht Hq. rewrite <- (strip_fixed fact Ht) at 2.
  set (snippet := lit "{" ++ content_key ++ lit " " ++ [dquote] ++ fact
                  ++ [dquote] ++ lit "}").
  assert (Hs : strip (lit " " ++ snippet) = snippet).
  { change (strip (lit " " ++ snippet)) with (strip snippet).
    apply strip_fixed, quoted_snippet_trimmed. }
  apply entry_of_unique. apply (e_quoted _ [] (lit " " ++ snippet)).
  - split; [reflexivity|]. intros; simpl; lia.
  - rewrite Hs.
    apply (qv_closed snippet (lit "{")
             (lit " " ++ [dquote] ++ fact ++ [dquote] ++ lit "}") fact (lit "}")).
    + split; [reflexivity|]. intros [|x a'] b' H; [discriminate H|simpl; lia].
    + reflexivity.
    + exact Hq.
Qed.

(** X14. Round trip for quoted previews: facts with no white space at
    either end, no line boundary and no double quote, written one per line
    as the quoted content value of a preview, are extracted as they were,
    in order; the empty fact among them. *)
Theorem extract_quoted_previews (facts : list str) :
  Forall (fun f => trimmed f /\ one_line f /\ ~ In dquote f) facts ->
  _extract_memory_entries (join [newline] (map quoted_preview facts)) = facts.
Proof.
  intros H. rewrite extract_kept, splitlines_join.
  - induction H as [|f fs (Ht & _ & Hq) _ IH]; [reflexivity|].
    simpl. rewrite (quoted_preview_entry f Ht Hq). simpl. now rewrite IH.
  - apply Forall_map.
    apply (Forall_impl _ (P := fun f => trimmed f /\ one_line f
                                        /\ ~ In dquote f)); [|exact H].
    intros f (_ & Hl & _). split; [discriminate|].
    unfold quoted_preview. apply Forall_app. split; [apply marker_is_one_line|].
    apply Forall_app. split; [repeat constructor|].
    apply Forall_app. split; [apply key_is_one_line|].
    apply Forall_app. split; [repeat constructor|].
    apply Forall_app. split; [repeat constructor|].
    apply Forall_app. split; [exact Hl|repeat constructor].
Qed.

Lemma extract_quoted_previews_witness :
  _extract_memory_entries
    (join [newline] (map quoted_preview [lit "my name is Bob"; []]))
  = [lit "my name is Bob"; []].
Proof.
  apply extract_quoted_previews.
  constructor; [|constructor; [|constructor]].
  - split; [apply (trimmed_ends "m" "b" (lit "y name is Bo")); reflexivity|].
    split; [repeat constructor|].
    simpl. intros H. repeat (destruct H as [H|H]; [discriminate H|]). exact H.
  - split; [split; [discriminate|intros r c H; now destruct r]|].
    split; [constructor|]. simpl. tauto.
Defined.

(** ** Statements on the direct answers *)

Lemma fact_text_value (ws : list str) (t v : str) :
  fact_text ws t v -> v <> [] /\ Forall (fun c => value_char c = true) v.
Proof. induction 1; auto. Qed.

Lemma replace_from_Forall (P : ascii -> Prop) (old new : str) :
  Forall P new ->
  forall s k, Forall P s -> Forall P (replace_from k old new s).
Proof.
  intros Hn s. induction s as [|c s IH]; intros k Hs; [constructor|].
  apply Forall_cons_iff in Hs as [Hc Hs]. simpl. destruct k as [|k].
  - destruct (startswith old (c :: s)).
    + apply Forall_app. split; [exact Hn|now apply IH].
    + constructor; [exact Hc|now apply IH].
  - now apply IH.
Qed.

Lemma question_value (b : bool) (ws : list str) (say : str -> str)
      (blob answer : str) :
  question b ws say blob = Some answer ->
  exists v, answer = say v /\ Forall (fun c => value_char c = true) v.
Proof.
  unfold question. destruct b; [|discriminate].
  destruct (Re.search (Re.fact ws) blob) as [m|] eqn:E; [|discriminate].
  intros [= <-].
  destruct (search_fact_some _ _ _ E) as (v & -> & pre & t & post & _ & Ht & _).
  exists v. split; [reflexivity|]. now apply (fact_text_value ws t v).
Qed.

(** X15. Every direct answer is one of the three sentences around a
    value, closed by a full stop, and the value holds no newline, no double
    quote and no full stop. *)
Theorem answer_from_memory_shape (query : str) (memories : list str)
        (answer : str) :
  _answer_from_memory query memories = Some answer ->
  exists opening value,
    answer = opening ++ value ++ lit "."
    /\ In opening [lit "Your birthday is "; lit "You live in ";
                   lit "Your name is "]
    /\ Forall (fun c => value_char c = true) value.
Proof.
  rewrite answer_from_memory_questions. cbv zeta.
  destruct (question _ [lit "birthday"; lit "is"] _ _) as [a|] eqn:Eb.
  - intros [= <-]. apply question_value in Eb as (v & -> & Hv).
    exists (lit "Your birthday is "),
      (replace (lit "oktober") (lit "october") (strip v)).
    split; [reflexivity|]. split; [simpl; tauto|].
    apply replace_from_Forall; [repeat constructor|].
    apply (piece_Forall _ _ v (piece_strip v) Hv).
  - destruct (question _ [lit "i"; lit "live"; lit "in"] _ _) as [a|] eqn:Er.
    + intros [= <-]. apply question_value in Er as (v & -> & Hv).
      exists (lit "You live in "), (strip v).
      split; [reflexivity|]. split; [simpl; tauto|].
      apply (piece_Forall _ _ v (piece_strip v) Hv).
    + intros En. apply question_value in En as (v & -> & Hv).
      exists (lit "Your name is "), (strip v).
      split; [reflexivity|]. split; [simpl; tauto|].
      apply (piece_Forall _ _ v (piece_strip v) Hv).
Qed.

Lemma answer_from_memory_shape_witness :
  exists opening value,
    lit "You live in Oslo." = opening ++ value ++ lit "."
    /\ In opening [lit "Your birthday is "; lit "You live in ";
                   lit "Your name is "]
    /\ Forall (fun c => value_char c = true) value.
Proof.
  apply (answer_from_memory_shape (lit "Where do I live?")
           [lit "I live in Oslo. It is cold"]).
  reflexivity.
Defined.

Lemma repeat1_whole (R : Type) (p : Re.charset) (k : str -> option R) (w : str) :
  w <> [] -> Forall (fun c => p c = true) w -> k [] <> None ->
  Re.repeat1 p k w = k [].
Proof.
  intros Hne Hw Hk. induction Hw as [|c w Hc Hw IH]; [easy|].
  simpl. rewrite Hc. destruct w as [|d w]; [reflexivity|].
  rewrite IH by easy. now destruct (k []).
Qed.

Lemma value_whole (R : Type) (v : str) (g : Re.groups)
      (k : str -> Re.groups -> option R) :
  v <> [] -> Forall (fun c => value_char c = true) v ->
  k [] ((1, v) :: g) <> None ->
  Re.run Re.value v g k = k [] ((1, v) :: g).
Proof.
  intros Hne Hv Hk. unfold Re.value. simpl.
  rewrite repeat1_whole; try assumption; simpl; now rewrite Nat.sub_0_r, firstn_all.
Qed.

Lemma spaces_one (R : Type) (rest : str) (g : Re.groups)
      (k : str -> Re.groups -> option R) :
  (forall c r, rest = c :: r -> isspace c = false) -> rest <> [] ->
  Re.run Re.spaces (" "%char :: rest) g k = k rest g.
Proof.
  intros Hh Hne. destruct rest as [|c r]; [easy|].
  simpl. now rewrite (Hh c r eq_refl).
Qed.

(** A fact in the phrasing of a pattern, in any case, is matched whole. *)
Lemma run_phrase (ws typed : list str) (v : str) :
  v <> [] -> trimmed v -> Forall (fun c => value_char c = true) v ->
  Forall2 (fun t w => lower t = lower w
                      /\ exists c r, t = c :: r /\ isspace c = false) typed ws ->
  forall g0, Re.run (Re.fact ws) (phrase typed v) g0 (fun _ g => Some g)
             = Some ((1, v) :: g0).
Proof.
  intros Hne [Hh _] Hv Hws.
  induction Hws as [|t w typed ws (Hl & c & r & Hw & Hc) Hws IH]; intros g0.
  - change (Re.run Re.value v g0 (fun _ g => Some g) = Some ((1, v) :: g0)).
    now rewrite value_whole.
  - change (Re.run (Re.word w) (t ++ " "%char :: phrase typed v) g0
              (fun s1 g1 => Re.run Re.spaces s1 g1
                 (fun s2 g2 => Re.run (Re.fact ws) s2 g2 (fun _ g => Some g)))
            = Some ((1, v) :: g0)).
    rewrite ReFacts.run_word_complete by exact Hl.
    rewrite spaces_one; [apply IH| |].
    + destruct Hws as [|t2 w2 typed2 ws2 (_ & c2 & r2 & -> & Hc2) _]; [exact Hh|].
      intros x y H. injection H as <- _. exact Hc2.
    + destruct Hws as [|t2 w2 typed2 ws2 (_ & c2 & r2 & -> & Hc2) _];
        [exact Hne|discriminate].
Qed.

Lemma search_skip (r : Re.regex) (c : ascii) (s : str) :
  Re.match_here r (c :: s) = None -> Re.search r (c :: s) = Re.search r s.
Proof. intros H. simpl. now rewrite H. Qed.

Lemma search_here (r : Re.regex) (s : str) (m : Re.groups) :
  Re.match_here r s = Some m -> Re.search r s = Some m.
Proof. intros H. destruct s; simpl; now rewrite H. Qed.

Lemma search_phrase (ws typed : list str) (v : str) :
  v <> [] -> trimmed v -> Forall (fun c => value_char c = true) v ->
  Forall2 (fun t w => lower t = lower w
                      /\ exists c r, t = c :: r /\ isspace c = false) typed ws ->
  Re.search (Re.fact ws) (phrase typed v) = Some [(1, v)].
Proof.
  intros Hne Ht Hv Hws. apply search_here. now apply run_phrase.
Qed.

(** X16. A fact in the phrasing the patterns expect is answered back:
    for a value that is not empty, has no white space at either end and
    holds no newline, double quote or full stop, the entry [my birthday is
    value] answers a birthday question with that value (oktober replaced),
    and, when no earlier question type is triggered, [I live in value]
    answers a residence question and [my name is value] a name question,
    each with the value as it is. *)
Theorem phrased_fact_is_answered (query value : str) :
  value <> [] -> trimmed value ->
  Forall (fun c => value_char c = true) value ->
  (contains (lit "birthday") (lower query) = true ->
   _answer_from_memory query [lit "my birthday is " ++ value]
   = Some (lit "Your birthday is "
           ++ replace (lit "oktober") (lit "october") value ++ lit "."))
  /\ (contains (lit "birthday") (lower query) = false ->
      contains (lit "where do i live") (lower query) = true
      \/ contains (lit "where i live") (lower query) = true ->
      _answer_from_memory query [lit "I live in " ++ value]
      = Some (lit "You live in " ++ value ++ lit "."))
  /\ (contains (lit "birthday") (lower query) = false ->
      contains (lit "where do i live") (lower query) = false ->
      contains (lit "where i live") (lower query) = false ->
      contains (lit "my name") (lower query) = true ->
      _answer_from_memory query [lit "my name is " ++ value]
      = Some (lit "Your name is " ++ value ++ lit ".")).
Proof.
  intros Hne Ht Hv.
  assert (Hb : Re.search birthday_re (lit "my birthday is " ++ value)
               = Some [(1, value)]).
  { unfold birthday_re.
    change (lit "my birthday is " ++ value)
      with ("m"%char :: "y"%char :: " "%char
            :: phrase [lit "birthday"; lit "is"] value).
    rewrite 3 search_skip by reflexivity.
    apply (search_phrase _ [lit "birthday"; lit "is"] value Hne Ht Hv).
    repeat constructor; eexists _, _; split; reflexivity. }
  assert (Hr : Re.search live_re (lit "I live in " ++ value) = Some [(1, value)]).
  { apply (search_phrase _ [lit "I"; lit "live"; lit "in"] value Hne Ht Hv).
    repeat constructor; eexists _, _; split; reflexivity. }
  assert (Hn : Re.search name_re (lit "my name is " ++ value) = Some [(1, value)]).
  { apply (search_phrase _ [lit "my"; lit "name"; lit "is"] value Hne Ht Hv).
    repeat constructor; eexists _, _; split; reflexivity. }
  unfold _answer_from_memory. rewrite NormalizeFacts.or_else_nil. cbv zeta.
  change (join [newline] [lit "my birthday is " ++ value])
    with (lit "my birthday is " ++ value).
  change (join [newline] [lit "I live in " ++ value])
    with (lit "I live in " ++ value).
  change (join [newline] [lit "my name is " ++ value])
    with (lit "my name is " ++ value).
  split; [|split].
  - intros ->. rewrite Hb. unfold group1. cbn [Re.group Nat.eqb].
    now rewrite (strip_fixed value Ht).
  - intros -> Hq. apply orb_true_iff in Hq. rewrite Hq, Hr.
    unfold group1. cbn [Re.group Nat.eqb]. now rewrite (strip_fixed value Ht).
  - intros -> -> -> ->. cbn [orb]. rewrite Hn.
    unfold group1. cbn [Re.group Nat.eqb]. now rewrite (strip_fixed value Ht).
Qed.

Lemma phrased_fact_is_answered_witness :
  _answer_from_memory (lit "When is my birthday?")
                      [lit "my birthday is 12 oktober"]
  = Some (lit "Your birthday is "
          ++ replace (lit "oktober") (lit "october") (lit "12 oktober")
          ++ lit ".").
Proof.
  apply (phrased_fact_is_answered (lit "When is my birthday?") (lit "12 oktober")).
  - discriminate.
  - apply (trimmed_ends "1" "r" (lit "2 oktobe")); reflexivity.
  - repeat constructor.
  - reflexivity.
Defined.

(** ** Statements on the cached agent *)



(** ** The calls a run spends *)

Module SpendFacts.
Import Py App Agent Further AgentFacts.

Section Spends.
Variable f : event -> bool.

Lemma tally_app (a b : list event) : tally f (a ++ b) = tally f a + tally f b.
Proof. unfold tally. now rewrite filter_app, length_app. Qed.

Lemma spends_more {A} (n n' : nat) (m : M A) :
  n <= n' -> spends f n m -> spends f n' m.
Proof.
  intros Hn H o w. destruct (H o w) as (new & Hl & Ht). exists new.
  split; [exact Hl|lia].
Qed.

Lemma spends_same {A} (m : M A) :
  (forall o w, log (snd (m o w)) = log w) -> spends f 0 m.
Proof.
  intros H o w. exists []. rewrite H, app_nil_r. split; [reflexivity|].
  unfold tally. simpl. lia.
Qed.

Lemma spends_ret {A} (a : A) : spends f 0 (ret a).
Proof. now apply spends_same. Qed.

Lemma spends_bind {A B} (n1 n2 : nat) (m : M A) (k : A -> M B) :
  spends f n1 m -> (forall a, spends f n2 (k a)) -> spends f (n1 + n2) (bind m k).
Proof.
  intros Hm Hk o w. unfold bind. destruct (Hm o w) as (new1 & H1 & T1).
  destruct (m o w) as [[a|e] w1]; simpl in H1.
  - destruct (Hk a o w1) as (new2 & H2 & T2). exists (new1 ++ new2).
    rewrite H2, H1, app_assoc, tally_app. split; [reflexivity|lia].
  - exists new1. split; [exact H1|lia].
Qed.

Lemma spends_catch {A} (n1 n2 : nat) (m : M A) (h : str -> M A) :
  spends f n1 m -> (forall e, spends f n2 (h e)) ->
  spends f (n1 + n2) (catch m h).
Proof.
  intros Hm Hh o w. unfold catch. destruct (Hm o w) as (new1 & H1 & T1).
  destruct (m o w) as [[a|e] w1]; simpl in H1.
  - exists new1. split; [exact H1|lia].
  - destruct (Hh e o w1) as (new2 & H2 & T2). exists (new1 ++ new2).
    rewrite H2, H1, app_assoc, tally_app. split; [reflexivity|lia].
Qed.

Lemma spends_event (e : event) : spends f (cost (f e)) (emit e).
Proof.
  intros o w. exists [e]. split; [reflexivity|]. unfold tally, cost. simpl.
  destruct (f e); simpl; lia.
Qed.

Lemma spends_external (c : call) :
  spends f (cost (f (Called c))) (external c).
Proof.
  intros o w. exists [Called c]. unfold external.
  split; [destruct (o (log w) c); reflexivity|]. unfold tally, cost. simpl.
  destruct (f (Called c)); simpl; lia.
Qed.

Hypothesis warnings_free : forall msg, f (Warned msg) = false.
Hypothesis shown_free : forall role content, f (Shown role content) = false.

Lemma spends_get_current_kb_id : spends f 0 get_current_kb_id.
Proof.
  intros o w. rewrite get_current_kb_id_run. simpl.
  exists (lookup_warnings w). split; [apply looked_up_warnings|].
  unfold lookup_warnings, tally. destruct (truthy (environ_get w)); simpl;
    [lia|]. rewrite warnings_free. simpl. lia.
Qed.

Lemma spends_get_kb_agent (kb_id : str) : spends f 0 (get_kb_agent kb_id).
Proof.
  apply spends_same. intros o w. rewrite get_kb_agent_run. simpl.
  apply with_agent_same.
Qed.

Lemma spends_call (c : call) (n : nat) :
  cost (f (Called c)) <= n -> spends f n (external c).
Proof. intros H. apply (spends_more _ _ _ H). apply spends_external. Qed.

(** What each call of the handlers for [query] costs, at most. *)
Variable query : str.
Variables n_route n_action n_summary n_store n_retrieve n_teacher : nat.
Hypothesis route_cost : cost (f (Called (routing_call query))) <= n_route.
Hypothesis action_cost : cost (f (Called (kb_action_call query))) <= n_action.
Hypothesis summary_cost :
  forall memories, cost (f (Called (summary_call query memories))) <= n_summary.
Hypothesis store_cost : cost (f (Called (store_call query))) <= n_store.
Hypothesis retrieve_cost :
  forall w, cost (f (Called (retrieve_call query w))) <= n_retrieve.
Hypothesis teacher_cost : cost (f (Called (teacher_agent query))) <= n_teacher.

Lemma spends_determine_action : spends f n_route (determine_action query).
Proof.
  unfold determine_action. destruct (_looks_like_kb_query query).
  - apply (spends_more 0); [lia|apply spends_ret].
  - apply (spends_more (0 + (0 + (n_route + 0)))); [lia|].
    apply spends_bind; [apply spends_get_current_kb_id|intros kb_id].
    apply spends_bind; [apply spends_get_kb_agent|intros _].
    apply spends_bind; [apply spends_call, route_cost|intros r; apply spends_ret].
Qed.

Lemma spends_answer_retrieval (kb_id result_str : str) :
  spends f n_summary (answer_retrieval kb_id query result_str).
Proof.
  assert (H0 : forall a : str, spends f n_summary (ret a))
    by (intros a; apply (spends_more 0); [lia|apply spends_ret]).
  unfold answer_retrieval.
  destruct (_ || _ || _); [apply H0|].
  destruct (contains (lit "No results found") result_str); [apply H0|].
  destruct (_answer_from_memory query (_extract_memory_entries result_str)) as [a|].
  - destruct (truthy a); apply H0.
  - destruct (_extract_memory_entries result_str) as [|m ms]; [apply H0|].
    apply spends_call. exact (summary_cost (m :: ms)).
Qed.

Lemma spends_run_kb_agent :
  spends f (n_action + Nat.max n_store (n_retrieve + n_summary))
         (run_kb_agent query).
Proof.
  unfold run_kb_agent.
  apply (spends_bind 0 _); [apply spends_get_current_kb_id|intros kb_id].
  destruct (negb (is_valid_kb_id kb_id));
    [apply (spends_more 0); [lia|apply spends_ret]|].
  apply (spends_bind 0 _); [apply spends_get_kb_agent|intros _].
  apply spends_bind; [apply spends_call, action_cost|intros result].
  cbv zeta. destruct (contains (lit "store") (strip (lower result))).
  - apply (spends_more (n_store + 0)); [lia|].
    apply spends_bind; [apply spends_call, store_cost|].
    intros; apply spends_ret.
  - apply (spends_more (0 + (n_retrieve + n_summary))); [lia|].
    apply spends_bind; [now apply spends_same|intros w].
    apply spends_bind; [apply spends_call, (retrieve_cost w)|intros r].
    apply spends_answer_retrieval.
Qed.

Lemma spends_handle_query :
  spends f (n_route
            + Nat.max n_teacher
                (n_action + Nat.max n_store (n_retrieve + n_summary)))
         (handle_query (Some query)).
Proof.
  unfold handle_query.
  destruct (truthy query); [|apply (spends_more 0); [lia|apply spends_ret]].
  apply (spends_bind 0 _); [now apply spends_same|intros _].
  apply (spends_bind 0 _);
    [generalize (spends_event (Shown (lit "user") query));
     now rewrite shown_free|intros _].
  rewrite <- (Nat.add_0_r (_ + _)). apply spends_catch.
  - apply spends_bind; [apply spends_determine_action|intros action].
    rewrite <- (Nat.add_0_r (Nat.max _ _)). apply spends_bind.
    + destruct (str_eqb action (lit "teacher")).
      * apply spends_call. generalize teacher_cost. lia.
      * apply (spends_more _ _ _ (Nat.le_max_r _ _)).
        apply spends_run_kb_agent.
    + intros content. apply (spends_bind 0 0); [|intros; now apply spends_same].
      generalize (spends_event (Shown (lit "assistant") content)).
      now rewrite shown_free.
  - intros e. apply (spends_bind 0 0); [|intros; now apply spends_same].
    generalize (spends_event (Shown (lit "assistant") (lit "An error occurred: " ++ e))).
    now rewrite shown_free.
Qed.

End Spends.

(** The three system prompts differ. *)
Lemma prompts_differ :
  ACTION_SYSTEM_PROMPT <> KB_ACTION_SYSTEM_PROMPT
  /\ ACTION_SYSTEM_PROMPT <> ANSWER_SYSTEM_PROMPT
  /\ KB_ACTION_SYSTEM_PROMPT <> ANSWER_SYSTEM_PROMPT.
Proof.
  split; [|split]; intros H.
  - apply (f_equal (fun l => nth 5 l " "%char)) in H. discriminate H.
  - apply (f_equal (fun l => nth 5 l " "%char)) in H. discriminate H.
  - apply (f_equal (fun l => nth 11 l " "%char)) in H. discriminate H.
Qed.

Lemma same_call_other (c c' : call) : c <> c' -> same_call c (Called c') = false.
Proof.
  intros H. unfold same_call. now destruct (call_eq_dec c c').
Qed.

(** A model call is another one unless the system prompts agree. *)
Lemma same_call_model (p s p' s' : str) :
  cost (same_call (use_llm p s) (Called (use_llm p' s')))
  <= cost (str_eqb s s').
Proof.
  unfold same_call.
  destruct (call_eq_dec (use_llm p s) (use_llm p' s')) as [E|_]; [|simpl; lia].
  injection E as _ ->. now rewrite (proj2 (str_eqb_eq s' s') eq_refl).
Qed.

(** No call is made twice by the handler of a query. *)
Lemma spends_once (c : call) (query : str) :
  spends (same_call c) 1 (handle_query (Some query)).
Proof.
  assert (Hz : forall c', c <> c' -> cost (same_call c (Called c')) <= 0)
    by (intros c' H; now rewrite (same_call_other _ _ H)).
  assert (H1 : forall c', cost (same_call c (Called c')) <= 1)
    by (intros c'; destruct (same_call c (Called c')); simpl; lia).
  destruct c as [p s|content|q sc n|q].
  - apply (spends_more _ (cost (str_eqb s ACTION_SYSTEM_PROMPT)
                        + Nat.max 0
                            (cost (str_eqb s KB_ACTION_SYSTEM_PROMPT)
                             + Nat.max 0
                                 (0 + cost (str_eqb s ANSWER_SYSTEM_PROMPT))))).
    + destruct prompts_differ as (H12 & H13 & H23).
      destruct (str_eqb s ACTION_SYSTEM_PROMPT) eqn:E1;
        destruct (str_eqb s KB_ACTION_SYSTEM_PROMPT) eqn:E2;
        destruct (str_eqb s ANSWER_SYSTEM_PROMPT) eqn:E3;
        try apply str_eqb_eq in E1; try apply str_eqb_eq in E2;
        try apply str_eqb_eq in E3; subst; simpl; try lia; congruence.
    + apply (spends_handle_query (same_call (use_llm p s))
               (fun _ => eq_refl) (fun _ _ => eq_refl) query).
      * apply same_call_model.
      * apply same_call_model.
      * intros ms. apply same_call_model.
      * apply Hz. discriminate.
      * intros w. apply Hz. discriminate.
      * apply Hz. discriminate.
  - apply (spends_more _ (0 + Nat.max 0 (0 + Nat.max 1 (0 + 0)))); [simpl; lia|].
    apply (spends_handle_query (same_call (memory_store content))
             (fun _ => eq_refl) (fun _ _ => eq_refl) query).
    + apply Hz. discriminate.
    + apply Hz. discriminate.
    + intros ms. apply Hz. discriminate.
    + apply H1.
    + intros w. apply Hz. discriminate.
    + apply Hz. discriminate.
  - apply (spends_more _ (0 + Nat.max 0 (0 + Nat.max 0 (1 + 0)))); [simpl; lia|].
    apply (spends_handle_query (same_call (memory_retrieve q sc n))
             (fun _ => eq_refl) (fun _ _ => eq_refl) query).
    + apply Hz. discriminate.
    + apply Hz. discriminate.
    + intros ms. apply Hz. discriminate.
    + apply Hz. discriminate.
    + intros w. apply H1.
    + apply Hz. discriminate.
  - apply (spends_more _ (0 + Nat.max 1 (0 + Nat.max 0 (0 + 0)))); [simpl; lia|].
    apply (spends_handle_query (same_call (teacher_agent q))
             (fun _ => eq_refl) (fun _ _ => eq_refl) query).
    + apply Hz. discriminate.
    + apply Hz. discriminate.
    + intros ms. apply Hz. discriminate.
    + apply Hz. discriminate.
    + intros w. apply Hz. discriminate.
    + apply H1.
Qed.

(** The calls of a kind that costs [n] at every place of the handlers. *)
Lemma spends_kind (f : event -> bool) (n : nat) (query : str) :
  (forall msg, f (Warned msg) = false) ->
  (forall role content, f (Shown role content) = false) ->
  (forall p s, cost (f (Called (use_llm p s))) <= n) ->
  forall n_store n_retrieve n_teacher,
  (forall c, cost (f (Called (memory_store c))) <= n_store) ->
  (forall q s k, cost (f (Called (memory_retrieve q s k))) <= n_retrieve) ->
  (forall q, cost (f (Called (teacher_agent q))) <= n_teacher) ->
  spends f (n + Nat.max n_teacher (n + Nat.max n_store (n_retrieve + n)))
         (handle_query (Some query)).
Proof.
  intros Hw Hs Hm n_store n_retrieve n_teacher Hst Hr Ht.
  apply (spends_handle_query f Hw Hs query).
  - apply Hm.
  - apply Hm.
  - intros ms. apply Hm.
  - apply Hst.
  - intros w. apply Hr.
  - apply Ht.
Qed.

End SpendFacts.

(** X18. One run of [handle_query] makes at most four calls to the
    collaborators: at most three to the model (routing, store or retrieve,
    summary), at most one to the memory service and at most one to the
    teacher agent; and no call is made twice: each call, with its
    arguments, occurs at most once among the events of the run. *)
Theorem handle_query_calls_bounded (input : option str) (o : oracle) (w : world) :
  exists new,
    log (snd (handle_query input o w)) = log w ++ new
    /\ tally any_call new <= 4
    /\ tally model_call new <= 3
    /\ tally memory_call new <= 1
    /\ tally teacher_call new <= 1
    /\ (forall c, tally (same_call c) new <= 1).
Proof.
  destruct input as [query|].
  - destruct (SpendFacts.spends_kind any_call 1 query
                (fun _ => eq_refl) (fun _ _ => eq_refl) (fun _ _ => le_n 1)
                1 1 1 (fun _ => le_n 1) (fun _ _ _ => le_n 1) (fun _ => le_n 1)
                o w) as (new & Hl & Ha).
    destruct (SpendFacts.spends_kind model_call 1 query
                (fun _ => eq_refl) (fun _ _ => eq_refl) (fun _ _ => le_n 1)
                0 0 0 (fun _ => le_n 0) (fun _ _ _ => le_n 0) (fun _ => le_n 0)
                o w) as (new2 & Hl2 & Hm).
    destruct (SpendFacts.spends_kind memory_call 0 query
                (fun _ => eq_refl) (fun _ _ => eq_refl) (fun _ _ => le_n 0)
                1 1 0 (fun _ => le_n 1) (fun _ _ _ => le_n 1) (fun _ => le_n 0)
                o w) as (new3 & Hl3 & Hs).
    destruct (SpendFacts.spends_kind teacher_call 0 query
                (fun _ => eq_refl) (fun _ _ => eq_refl) (fun _ _ => le_n 0)
                0 0 1 (fun _ => le_n 0) (fun _ _ _ => le_n 0) (fun _ => le_n 1)
                o w) as (new4 & Hl4 & Ht).
    rewrite Hl in Hl2, Hl3, Hl4. apply app_inv_head in Hl2, Hl3, Hl4.
    subst new2 new3 new4. exists new.
    split; [exact Hl|]. split; [exact Ha|]. split; [exact Hm|].
    split; [exact Hs|]. split; [exact Ht|]. intros c.
    destruct (SpendFacts.spends_once c query o w) as (new5 & Hl5 & Hc).
    rewrite Hl in Hl5. apply app_inv_head in Hl5. now subst new5.
  - exists []. unfold tally. simpl. rewrite app_nil_r.
    split; [reflexivity|]. split; [lia|]. split; [lia|]. split; [lia|].
    split; [lia|]. intros _. lia.
Qed.

(** * Properties of vtb-agents/hotel_helpers.py and image_helpers.py *)

Module HelperFacts.
Import Py App Agent Helpers Further TrimFacts PieceFacts.

Lemma key_of_strip (value message : str) (k : str) :
  (if negb (truthy (strip value)) then Exn message else Ok (strip value)) = Ok k ->
  k <> [] /\ trimmed k /\ piece k value.
Proof.
  destruct (strip value) as [|c r] eqn:E; simpl; [discriminate|].
  intros [= <-]. split; [discriminate|]. rewrite <- E.
  split; [apply strip_trimmed|apply piece_strip].
Qed.

Lemma key_raises (value message : str) :
  blank value <->
  (if negb (truthy (strip value)) then Exn message else Ok (strip value))
  = Exn message.
Proof.
  rewrite <- strip_nil. destruct (strip value); simpl; split; congruence.
Qed.

Lemma lower_char_fixed (c : ascii) : lower_char (lower_char c) = lower_char c.
Proof. destruct c as [[] [] [] [] [] [] [] []]; reflexivity. Qed.

Lemma lower_is_lower (s : str) : Forall (fun c => lower_char c = c) (lower s).
Proof.
  unfold lower. apply Forall_map. apply Forall_forall. intros c _.
  apply lower_char_fixed.
Qed.

Lemma rev_not_nil (x : ascii) (cur : str) : rev (x :: cur) <> [].
Proof.
  intros H. apply (f_equal (@rev ascii)) in H. rewrite rev_involutive in H.
  discriminate.
Qed.

(** The parts of [split] are words. *)
Lemma split_from_words (s cur : str) :
  Forall (fun c => lower_char c = c) s ->
  Forall (fun c => isspace c = false /\ lower_char c = c) cur ->
  Forall name_word (split_from cur s).
Proof.
  intros Hs. revert cur. induction Hs as [|c s Hc Hs IH]; intros cur Hcur; simpl.
  - destruct cur as [|x cur]; [constructor|]. repeat constructor.
    + apply rev_not_nil.
    + apply Forall_rev. exact Hcur.
  - destruct (isspace c) eqn:Ec.
    + destruct cur as [|x cur]; [apply IH; constructor|].
      constructor; [|apply IH; constructor]. split; [apply rev_not_nil|].
      apply Forall_rev. exact Hcur.
    + apply IH. constructor; [|exact Hcur]. now split.
Qed.

Lemma split_from_word (w s cur : str) :
  Forall (fun c => isspace c = false /\ lower_char c = c) w ->
  split_from cur (w ++ s) = split_from (rev w ++ cur) s.
Proof.
  intros Hw. revert cur. induction Hw as [|c w [Hc _] Hw IH]; intros cur;
    [reflexivity|].
  simpl. rewrite Hc, IH, <- app_assoc. reflexivity.
Qed.

Lemma split_from_space (w s : str) :
  w <> [] -> split_from (rev w) (" "%char :: s) = w :: split_from [] s.
Proof.
  intros Hne. simpl. destruct (rev w) eqn:E.
  - apply (f_equal (@rev ascii)) in E. rewrite rev_involutive in E. easy.
  - now rewrite <- E, rev_involutive.
Qed.

(** Words joined by single spaces split back into themselves. *)
Lemma split_join (ws : list str) :
  Forall name_word ws -> split (join (lit " ") ws) = ws.
Proof.
  unfold split. induction 1 as [|w ws [Hne Hw] Hws IH]; [reflexivity|].
  destruct ws as [|w2 ws].
  - simpl. rewrite <- (app_nil_r w) at 1. rewrite split_from_word by exact Hw.
    rewrite app_nil_r. simpl. destruct (rev w) eqn:E.
    + apply (f_equal (@rev ascii)) in E. rewrite rev_involutive in E. easy.
    + now rewrite <- E, rev_involutive.
  - change (join (lit " ") (w :: w2 :: ws))
      with (w ++ " "%char :: join (lit " ") (w2 :: ws)).
    rewrite split_from_word by exact Hw. rewrite app_nil_r.
    rewrite split_from_space by exact Hne. now rewrite IH.
Qed.

Lemma word_lower (w : str) : name_word w -> lower w = w.
Proof.
  intros [_ Hw]. induction Hw as [|c w [_ Hc] _ IH]; [reflexivity|].
  simpl. now rewrite Hc, IH.
Qed.

Lemma join_lower (ws : list str) :
  Forall name_word ws -> lower (join (lit " ") ws) = join (lit " ") ws.
Proof.
  induction 1 as [|w ws Hw Hws IH]; [reflexivity|].
  destruct ws as [|w2 ws]; [now apply word_lower|].
  change (join (lit " ") (w :: w2 :: ws))
    with (w ++ lit " " ++ join (lit " ") (w2 :: ws)).
  now rewrite !lower_app, (word_lower w Hw), IH.
Qed.

Lemma join_not_nil (w : str) (ws : list str) :
  w <> [] -> join (lit " ") (w :: ws) <> [].
Proof.
  intros Hne. destruct ws; simpl; [exact Hne|]. destruct w; [easy|discriminate].
Qed.

Lemma join_trimmed (ws : list str) :
  Forall name_word ws -> trimmed (join (lit " ") ws).
Proof.
  induction 1 as [|w ws [Hne Hw] Hws [IHh IHl]];
    [split; [discriminate|intros r c H; now destruct r]|].
  destruct ws as [|w2 ws].
  - simpl. split.
    + intros c r ->. apply Forall_cons_iff in Hw. tauto.
    + intros r c ->. apply Forall_app in Hw as [_ Hw].
      apply Forall_cons_iff in Hw. tauto.
  - change (join (lit " ") (w :: w2 :: ws))
      with (w ++ lit " " ++ join (lit " ") (w2 :: ws)).
    split.
    + intros c r H. destruct w as [|x w]; [easy|]. injection H as <- _.
      apply Forall_cons_iff in Hw. tauto.
    + intros r c H. rewrite !app_assoc in H.
      assert (Hj : join (lit " ") (w2 :: ws) <> []).
      { apply Forall_cons_iff in Hws as [[Hne2 _] _]. now apply join_not_nil. }
      destruct (exists_last Hj) as (r' & c' & Hr').
      rewrite Hr', app_assoc in H. apply app_inj_tail in H as [_ <-].
      now apply (IHl r' c').
Qed.

Lemma normalize_name_words (value : option str) :
  exists ws, Forall name_word ws /\ normalize_name value = join (lit " ") ws.
Proof.
  destruct value as [v|]; [|now exists []]. unfold normalize_name.
  destruct (negb (truthy v)); [now exists []|].
  exists (split (strip (lower v))). split; [|reflexivity].
  apply split_from_words; [|constructor].
  apply (piece_Forall _ _ (lower v) (piece_strip _)), lower_is_lower.
Qed.

End HelperFacts.

Import Helpers HelperFacts.

(** X19. The API keys: [get_airtrotter_api_key] and
    [get_unsplash_api_key] never return an empty key or one with white
    space around it; the key is the trimmed value of the variable; and
    they raise exactly when the variable is unset, empty or all white
    space. *)
Theorem api_keys_never_blank (env : environ) :
  (forall k, get_airtrotter_api_key env = Ok k ->
             k <> [] /\ trimmed k
             /\ piece k (environ_get_or env (lit "AIRTROTTER_API_KEY") []))
  /\ (blank (environ_get_or env (lit "AIRTROTTER_API_KEY") []) <->
      get_airtrotter_api_key env
      = Exn (lit "AIRTROTTER_API_KEY is not set. Add it to environment or .env file."))
  /\ (forall k, get_unsplash_api_key env = Ok k ->
                k <> [] /\ trimmed k
                /\ piece k (environ_get_or env (lit "UNSPLASH_API_KEY") []))
  /\ (blank (environ_get_or env (lit "UNSPLASH_API_KEY") []) <->
      get_unsplash_api_key env
      = Exn (lit "UNSPLASH_API_KEY is not set. Add it to environment or .env file.")).
Proof.
  unfold get_airtrotter_api_key, get_unsplash_api_key. cbv zeta.
  split; [intros k; apply key_of_strip|].
  split; [apply key_raises|].
  split; [intros k; apply key_of_strip|apply key_raises].
Qed.

Lemma api_keys_never_blank_witness :
  lit "k-123" <> [] /\ trimmed (lit "k-123")
  /\ piece (lit "k-123")
           (environ_get_or [(lit "AIRTROTTER_API_KEY", lit " k-123 ")]
                           (lit "AIRTROTTER_API_KEY") []).
Proof.
  apply (proj1 (api_keys_never_blank [(lit "AIRTROTTER_API_KEY", lit " k-123 ")])).
  reflexivity.
Defined.

(** X20. [normalize_name] gives a canonical form: lower-case words with
    no white space inside, joined by single spaces; normalizing a
    normalized name changes nothing; and no name, the empty name and a
    blank name all give the empty string. *)
Theorem normalize_name_canonical (value : option str) :
  (exists ws, Forall name_word ws /\ normalize_name value = join (lit " ") ws)
  /\ normalize_name (Some (normalize_name value)) = normalize_name value
  /\ normalize_name None = []
  /\ (forall v, blank v -> normalize_name (Some v) = []).
Proof.
  split; [apply normalize_name_words|]. split; [|split; [reflexivity|]].
  - destruct (normalize_name_words value) as (ws & Hws & ->).
    unfold normalize_name.
    destruct (join (lit " ") ws) as [|c r] eqn:E; [reflexivity|].
    change (negb (truthy (c :: r))) with false. cbv iota. rewrite <- E.
    rewrite (join_lower ws Hws), (strip_fixed _ (join_trimmed ws Hws)).
    now rewrite (split_join ws Hws).
  - intros v Hv. unfold normalize_name. destruct (negb (truthy v)); [reflexivity|].
    replace (strip (lower v)) with (@nil ascii); [reflexivity|].
    symmetry. apply strip_nil. unfold blank in *. unfold lower.
    rewrite forallb_forall in *. intros c Hc.
    apply in_map_iff in Hc as (x & <- & Hx). rewrite lower_char_isspace. auto.
Qed.

Lemma normalize_name_canonical_witness :
  normalize_name (Some ["160"%char; " "%char; "009"%char]) = [].
Proof.
  apply (proj2 (proj2 (proj2 (normalize_name_canonical None)))). reflexivity.
Defined.

(** ** The helpers on small inputs *)

Module HelperExamples.
Import Py App Helpers.

Example split_runs :
  split (lit "  A " ++ ["009"%char] ++ lit " b" ++ ["160"%char] ++ lit "c "
         ++ ["133"%char])
  = [lit "A"; lit "b"; lit "c"].
Proof. reflexivity. Qed.

Example split_blank : split (lit "   ") = [].
Proof. reflexivity. Qed.

Example normalize_name_hotel :
  normalize_name (Some (lit " Grand  HOTEL" ++ ["009"%char] ++ lit "Venice "))
  = lit "grand hotel venice".
Proof. reflexivity. Qed.

Example normalize_name_nbsp :
  normalize_name (Some (lit "a" ++ ["160"%char] ++ lit "B")) = lit "a b".
Proof. reflexivity. Qed.

End HelperExamples.
